(** * Link Sorter ([sortLinks.js]): a shallow embedding and its properties

    The script reads a Markdown file, keeps the lines before the first link as
    a header, collects the link lines that follow, removes duplicates, sorts
    them (flat, or grouped by domain), writes header and links back, and
    reports statistics about the links.

    ** Conventions of the embedding

    - A JavaScript string is a sequence of UTF-16 code units; here it is a
      [string], each character standing for the code unit of the same number.
      The development therefore speaks about documents whose code units are
      below 256 (ASCII and Latin-1).
    - [String.prototype.localeCompare] and the [URL] constructor belong to the
      platform (ICU collation, the WHATWG URL parser), not to the script; they
      are parameters of the functions that call them.
    - [Array.prototype.sort] is stable (ECMAScript 2019); for a consistent
      comparator its result is the one a stable insertion sort computes.
    - [newContent] is the text [sortLinks] hands to [fs.writeFileSync];
      [sortLinks] itself threads the files and the console through the run,
      with the value of [Date.now()] as an argument.  [main] is the script's
      top level: it reads the arguments after [node sortLinks.js] and ends
      with an exit code or an uncaught exception. *)

From Stdlib Require Import Ascii String ZArith Lia.
From Stdlib Require Import Uint63 Floats.
From stdpp Require Import base option list strings gmap pretty sorting.

Local Open Scope stdpp_scope.

(** ** String primitives *)

Module JsString.

(** Code units below 256 that [trim] removes: TAB, LF, VT, FF, CR, SPACE and
    NO-BREAK SPACE (WhiteSpace and LineTerminator of ECMAScript). *)
Definition is_white_space (c : ascii) : bool :=
  match N_of_ascii c with
  | 9 | 10 | 11 | 12 | 13 | 32 | 160 => true
  | _ => false
  end%N.

Fixpoint trimStart (s : string) : string :=
  match s with
  | "" => ""
  | String c s' => if is_white_space c then trimStart s' else s
  end.

Fixpoint trimEnd (s : string) : string :=
  match s with
  | "" => ""
  | String c s' =>
      match trimEnd s' with
      | "" => if is_white_space c then "" else String c ""
      | r => String c r
      end
  end.

(** [s.trim()] *)
Definition trim (s : string) : string := trimEnd (trimStart s).

(** The rest of [s] after the prefix [p], when [s] starts with [p]. *)
Fixpoint after_prefix (p s : string) : option string :=
  match p with
  | "" => Some s
  | String a p' =>
      match s with
      | "" => None
      | String b s' => if Ascii.eqb a b then after_prefix p' s' else None
      end
  end.

(** [s.startsWith(p)] *)
Definition startsWith (s p : string) : bool :=
  match after_prefix p s with Some _ => true | None => false end.

(** [s.includes(p)] *)
Fixpoint includes (s p : string) : bool :=
  startsWith s p ||
  match s with
  | "" => false
  | String _ s' => includes s' p
  end.

(** [s.replace(pat, rep)] for a string pattern: only the first occurrence
    is replaced.  (The script's replacement text is always empty, so the
    [$]-patterns of replacement strings play no part.) *)
Fixpoint replace (s pat rep : string) : string :=
  match after_prefix pat s with
  | Some rest => rep +:+ rest
  | None =>
      match s with
      | "" => ""
      | String c s' => String c (replace s' pat rep)
      end
  end.

(** The line feed, ['\n']. *)
Definition LF : string := String "010" "".

(** [s.split('\n')] *)
Fixpoint split_lines (s : string) : list string :=
  match s with
  | "" => [""]
  | String c s' =>
      if Ascii.eqb c "010" then "" :: split_lines s'
      else match split_lines s' with
           | l :: ls => String c l :: ls
           | [] => [String c ""]
           end
  end.

(** [l.join(sep)] *)
Fixpoint join (sep : string) (l : list string) : string :=
  match l with
  | [] => ""
  | [x] => x
  | x :: l' => x +:+ sep +:+ join sep l'
  end.

(** [s.toLowerCase()] on code units below 256: A-Z and the Latin-1 capitals
    (all of 0xC0-0xDE but the multiplication sign 0xD7) move up by 32. *)
Definition lower_char (c : ascii) : ascii :=
  let n := N_of_ascii c in
  if ((65 <=? n) && (n <=? 90) || (192 <=? n) && (n <=? 222) && negb (n =? 215))%N
  then ascii_of_N (n + 32) else c.

Fixpoint toLowerCase (s : string) : string :=
  match s with
  | "" => ""
  | String c s' => String (lower_char c) (toLowerCase s')
  end.

(** Every code unit of [s] satisfies [f]. *)
Fixpoint all_chars (f : ascii → bool) (s : string) : bool :=
  match s with
  | "" => true
  | String c s' => f c && all_chars f s'
  end.

End JsString.
Import JsString.

(** ** Arrays and sets *)

Module JsArray.

(** [arr.sort(compare)]: [compare a b] is the number the comparator returns
    and only its sign matters.  [insert_sorted x l] puts [x], which stood
    before every element of [l], in front of the first element it does not
    exceed, so equal elements keep their order. *)
Fixpoint insert_sorted {A} (compare : A → A → Z) (x : A) (l : list A) : list A :=
  match l with
  | [] => [x]
  | y :: l' =>
      if (0 <? compare x y)%Z then y :: insert_sorted compare x l' else x :: l
  end.

Definition sort {A} (compare : A → A → Z) (l : list A) : list A :=
  foldr (insert_sorted compare) [] l.

(** [arr.slice(0, n)] *)
Definition slice0 {A} (n : nat) (l : list A) : list A := take n l.

(** A [Set] of strings, by the order of insertion: [set.add(x)]. *)
Definition Set_add (s : list string) (x : string) : list string :=
  if bool_decide (x ∈ s) then s else s ++ [x].

End JsArray.

(** ** Plain objects used as tables *)

Module JsObject.

(** The own properties of an object created by [{}], oldest first.  What such
    an object inherits from [Object.prototype] is listed below: each of these
    names reads as a function, but for [__proto__], which reads as
    [Object.prototype] itself; all of them are truthy. *)
Definition object (V : Type) : Type := list (string * V).

Definition prototype_functions : list string :=
  [ "constructor"; "__defineGetter__"; "__defineSetter__"; "hasOwnProperty";
    "__lookupGetter__"; "__lookupSetter__"; "isPrototypeOf";
    "propertyIsEnumerable"; "toString"; "valueOf"; "toLocaleString" ].

Definition inherited (k : string) : bool :=
  bool_decide (k = "__proto__" ∨ k ∈ prototype_functions).

(** [String(Object.prototype[k])] for an inherited function. *)
Definition function_source (k : string) : string :=
  "function " +:+ (if String.eqb k "constructor" then "Object" else k)
              +:+ "() { [native code] }".

Fixpoint own {V} (o : object V) (k : string) : option V :=
  match o with
  | [] => None
  | (k', v) :: o' => if String.eqb k' k then Some v else own o' k
  end.

(** [o[k] = v] on an own or fresh property: an own property keeps its place,
    a new one goes last. *)
Fixpoint set {V} (o : object V) (k : string) (v : V) : object V :=
  match o with
  | [] => [(k, v)]
  | (k', v') :: o' =>
      if String.eqb k' k then (k, v) :: o' else (k', v') :: set o' k v
  end.

Definition digit (c : ascii) : option N :=
  let n := N_of_ascii c in
  if ((48 <=? n) && (n <=? 57))%N then Some (n - 48)%N else None.

Fixpoint decimal_value (acc : N) (s : string) : option N :=
  match s with
  | "" => Some acc
  | String c s' =>
      match digit c with
      | Some d => decimal_value (10 * acc + d) s'
      | None => None
      end
  end.

(** An array index: the canonical decimal form of an integer below 2^32 - 1. *)
Definition array_index (k : string) : option N :=
  match k with
  | "" => None
  | String c rest =>
      if Ascii.eqb c "0" && negb (String.eqb rest "") then None
      else match decimal_value 0 k with
           | Some n => if (n <=? 4294967294)%N then Some n else None
           | None => None
           end
  end.

Definition index_of {V} (e : string * V) : N := default 0%N (array_index e.1).

(** [Object.entries(o)]: array indices first, in ascending order, then the
    other keys in the order of their creation. *)
Definition entries {V} (o : object V) : list (string * V) :=
  JsArray.sort (λ a b, Z.of_N (index_of a) - Z.of_N (index_of b))%Z
               (filter (λ e, is_Some (array_index e.1)) o)
  ++ filter (λ e, ¬ is_Some (array_index e.1)) o.

(** [Object.keys(o)] *)
Definition keys {V} (o : object V) : list string := (entries o).*1.

End JsObject.

(** ** Numbers *)

Module JsNumber.

(** A count or a length as a Number (exact below 2^53). *)
Definition of_N (n : N) : float := PrimFloat.of_uint63 (Uint63.of_Z (Z.of_N n)).

(** [Math.round(x)]: the integer nearest to [x], halves going up; NaN,
    infinities and zeros are returned as they are, and a negative [x] that
    rounds to zero gives [-0]. *)
Definition Math_round (x : float) : float :=
  match Prim2SF x with
  | S754_finite s m e =>
      if (0 <=? e)%Z then x
      else
        let k := (- e)%Z in
        if s then
          PrimFloat.opp
            (PrimFloat.of_uint63
               (Uint63.of_Z ((2 * Z.pos m + 2 ^ k - 1) / 2 ^ (k + 1))))%Z
        else
          PrimFloat.of_uint63 (Uint63.of_Z ((2 * Z.pos m + 2 ^ k) / 2 ^ (k + 1)))%Z
  | _ => x
  end.

(** [String(x)] as a template literal prints it, for NaN, the infinities and
    the integers below 10^21 in magnitude, which is what [Math.round] returns
    from the script's percentages. *)
Definition toString (x : float) : string :=
  match Prim2SF x with
  | S754_nan => "NaN"
  | S754_infinity s => if s then "-Infinity" else "Infinity"
  | S754_zero _ => "0"
  | S754_finite s m e =>
      (if s then "-" else "") +:+ pretty (Z.shiftl (Z.pos m) e)
  end.

End JsNumber.

(** ** The script *)

Import JsArray.

(** A value of [domainStats] or [topLevelDomainStats]: a count, or the text
    that [+ 1] makes of an inherited function ([Text s] never reads as a
    number). *)
Inductive count : Type :=
  | Num (n : N)
  | Text (s : string).

(** [collectStatistics]'s result. *)
Record Stats : Type := {
  totalLinks : nat;
  uniqueLinks : nat;
  duplicates : Z;
  protocolStats_http : nat;
  protocolStats_https : nat;
  domainStats : JsObject.object count;
  topLevelDomainStats : JsObject.object count;
  brokenLinks : list string
}.

(** The state of the link loop of [sortLinks]. *)
Record Extraction : Type := {
  links : list string;
  rawUrls : list string;
  urlToLineMap : gmap string string
}.

(** The loop body of [collectStatistics] (lines 15-22): the URL of a line, or
    the empty string when the line is no link. *)
Definition line_url (line : string) : string :=
  let trimmedLine := trim line in
  if startsWith trimmedLine "* "
     && (includes trimmedLine "http://" || includes trimmedLine "https://")
  then trim (replace trimmedLine "* " "")
  else if startsWith trimmedLine "http://" || startsWith trimmedLine "https://"
  then trimmedLine
  else "".

(** Lines 24-27: [allLinks] and [rawUrls] after one more line. *)
Definition collect_line (acc : list string * list string) (line : string)
  : list string * list string :=
  let url := line_url line in
  if String.eqb url "" then acc else (acc.1 ++ [url], Set_add acc.2 url).

Definition collect_links (lines : list string) : list string * list string :=
  foldl collect_line ([], []) lines.

(** [domain.replace(/^www\./, '')] *)
Definition strip_www (domain : string) : string :=
  match after_prefix "www." domain with
  | Some rest => rest
  | None => domain
  end.

(** The text after the last dot of [s], when [s] has a dot. *)
Fixpoint after_last_dot (s : string) : option string :=
  match s with
  | "" => None
  | String c s' =>
      match after_last_dot s' with
      | Some r => Some r
      | None => if Ascii.eqb c "." then Some s' else None
      end
  end.

(** [tldMatch ? tldMatch[1] : 'unknown'] for [domain.match(/\.([^.]+)$/)] *)
Definition tld_of (domain : string) : string :=
  match after_last_dot domain with
  | Some "" | None => "unknown"
  | Some tld => tld
  end.

(** [o[k] = (o[k] || 0) + 1].  An inherited function makes the sum a text;
    through [__proto__] the text goes to a setter that ignores it. *)
Definition increment (o : JsObject.object count) (k : string)
  : JsObject.object count :=
  match JsObject.own o k with
  | Some (Num n) => JsObject.set o k (Num (n + 1))
  | Some (Text "") => JsObject.set o k (Num 1)
  | Some (Text s) => JsObject.set o k (Text (s +:+ "1"))
  | None =>
      if String.eqb k "__proto__" then o
      else if JsObject.inherited k
      then JsObject.set o k (Text (JsObject.function_source k +:+ "1"))
      else JsObject.set o k (Num 1)
  end.

(** *** [printLinkStatistics]: the lines handed to [console.log] *)

Definition show_count (c : count) : string :=
  match c with
  | Num n => pretty n
  | Text s => s
  end.

(** A table value as a Number: a text is NaN. *)
Definition count_number (c : count) : float :=
  match c with
  | Num n => JsNumber.of_N n
  | Text _ => PrimFloat.nan
  end.

(** [Math.round(count / stats.uniqueLinks * 100)] inside a template. *)
Definition percentage (c : float) (unique : nat) : float :=
  JsNumber.Math_round (c / JsNumber.of_N (N.of_nat unique) * JsNumber.of_N 100).

Definition percent (c : float) (unique : nat) : string :=
  JsNumber.toString (percentage c unique).

(** [(a, b) => b[1] - a[1]]; with a text on either side the difference is
    NaN, which [sort] reads as 0.  (A table that holds a text makes this
    comparator inconsistent, and the order of the engine's [sort] is then
    implementation-defined; the lines below follow the insertion sort.) *)
Definition by_count_desc (a b : string * count) : Z :=
  match a.2, b.2 with
  | Num x, Num y => Z.of_N y - Z.of_N x
  | _, _ => 0
  end.

(** Lines 72-73. *)
Definition protocol_lines (stats : Stats) : list string :=
  [ "  HTTP: " +:+ pretty (protocolStats_http stats) +:+ " ("
      +:+ percent (JsNumber.of_N (N.of_nat (protocolStats_http stats)))
                  (uniqueLinks stats) +:+ "%)";
    "  HTTPS: " +:+ pretty (protocolStats_https stats) +:+ " ("
      +:+ percent (JsNumber.of_N (N.of_nat (protocolStats_https stats)))
                  (uniqueLinks stats) +:+ "%)" ].

(** Lines 76-82.  The order is that of the script when every value of the
    table is a number; see [by_count_desc]. *)
Definition domain_lines (stats : Stats) : list string :=
  map (λ e, "  " +:+ e.1 +:+ ": " +:+ show_count e.2 +:+ " links")
      (slice0 10 (sort by_count_desc (JsObject.entries (domainStats stats)))).

(** Lines 85-91.  The order is that of the script when every value of the
    table is a number; see [by_count_desc]. *)
Definition tld_lines (stats : Stats) : list string :=
  map (λ e, "  ." +:+ e.1 +:+ ": " +:+ show_count e.2 +:+ " links ("
              +:+ percent (count_number e.2) (uniqueLinks stats) +:+ "%)")
      (slice0 10 (sort by_count_desc (JsObject.entries (topLevelDomainStats stats)))).

(** Lines 93-101. *)
Definition broken_lines (stats : Stats) : list string :=
  let n := length (brokenLinks stats) in
  if (0 <? n)%nat then
    [ LF +:+ "Potentially malformed URLs: " +:+ pretty n ]
    ++ map (λ url, "  - " +:+ url) (slice0 5 (brokenLinks stats))
    ++ (if (5 <? n)%nat
        then [ "  ... and " +:+ pretty (n - 5)%nat +:+ " more" ]
        else [])
  else [].

Definition printLinkStatistics (stats : Stats) : list string :=
  [ LF +:+ "=== LINK STATISTICS ===";
    "Total links: " +:+ pretty (totalLinks stats);
    "Unique links: " +:+ pretty (uniqueLinks stats);
    "Duplicate links: " +:+ pretty (duplicates stats);
    LF +:+ "Protocol usage:" ]
  ++ protocol_lines stats
  ++ [ LF +:+ "Top 10 domains by link count:" ]
  ++ domain_lines stats
  ++ [ LF +:+ "Top-level domains:" ]
  ++ tld_lines stats
  ++ broken_lines stats
  ++ [ LF +:+ "======================" ].

(** The loop of [sortLinks] that finds [headerEndIndex] (lines 132-139). *)
Definition is_header_end (line : string) : bool :=
  let t := trim line in
  (startsWith t "* http" || startsWith t "* https")
  || (startsWith t "http" || startsWith t "https").

Fixpoint first_header_end (i : nat) (lines : list string) : option nat :=
  match lines with
  | [] => None
  | line :: rest =>
      if is_header_end line then Some i else first_header_end (S i) rest
  end.

Definition headerEndIndex (lines : list string) : nat :=
  default 0 (first_header_end 0 lines).

(** The loop body of the link loop (lines 149-161): [(url, originalLine)]. *)
Definition classify (rawLine : string) : string * string :=
  let line := trim rawLine in
  if startsWith line "* " && (includes line "http://" || includes line "https://")
  then
    let url := trim (replace line "* " "") in
    (url, if negb (startsWith rawLine "* ") then "* " +:+ url else rawLine)
  else if startsWith line "http://" || startsWith line "https://"
  then (line, "* " +:+ line)
  else ("", rawLine).

(** Lines 163-167. *)
Definition extract_line (st : Extraction) (rawLine : string) : Extraction :=
  let '(url, originalLine) := classify rawLine in
  if String.eqb url "" then st
  else {| links := links st ++ [originalLine];
          rawUrls := Set_add (rawUrls st) url;
          urlToLineMap := <[url := originalLine]> (urlToLineMap st) |}.

Definition extract (body : list string) : Extraction :=
  foldl extract_line {| links := []; rawUrls := []; urlToLineMap := ∅ |} body.

(** [urlToLineMap[url]]; every member of [rawUrls] has an entry
    ([extract_lookup] below), so the default is never read. *)
Definition line_of (m : gmap string string) (url : string) : string :=
  default "" (m !! url).

(** [url.match(/https?:\/\/([^\/]+)/)]: the capture of the leftmost match. *)
Fixpoint up_to_slash (s : string) : string :=
  match s with
  | "" => ""
  | String c s' => if Ascii.eqb c "/" then "" else String c (up_to_slash s')
  end.

Definition authority_here (s : string) : option string :=
  let rest := match after_prefix "https://" s with
              | Some r => Some r
              | None => after_prefix "http://" s
              end in
  match rest with
  | Some r => match up_to_slash r with "" => None | a => Some a end
  | None => None
  end.

Fixpoint match_authority (s : string) : option string :=
  match authority_here s with
  | Some a => Some a
  | None =>
      match s with
      | "" => None
      | String _ s' => match_authority s'
      end
  end.

Section Platform.

(** [a.localeCompare(b)] *)
Variable localeCompare : string → string → Z.

(** [new URL(url).hostname], or [None] when the constructor throws. *)
Variable URL_hostname : string → option string.

(** Lines 45-57 of [collectStatistics], for one URL. *)
Definition analyse (st : Stats) (url : string) : Stats :=
  match URL_hostname url with
  | Some hostname =>
      let domain := strip_www hostname in
      let tld := tld_of domain in
      {| totalLinks := totalLinks st;
         uniqueLinks := uniqueLinks st;
         duplicates := duplicates st;
         protocolStats_http := protocolStats_http st;
         protocolStats_https := protocolStats_https st;
         domainStats := increment (domainStats st) domain;
         topLevelDomainStats := increment (topLevelDomainStats st) tld;
         brokenLinks := brokenLinks st |}
  | None =>
      {| totalLinks := totalLinks st;
         uniqueLinks := uniqueLinks st;
         duplicates := duplicates st;
         protocolStats_http := protocolStats_http st;
         protocolStats_https := protocolStats_https st;
         domainStats := domainStats st;
         topLevelDomainStats := topLevelDomainStats st;
         brokenLinks := brokenLinks st ++ [url] |}
  end.

Definition collectStatistics (content : string) : Stats :=
  let lines := split_lines content in
  let '(allLinks, rawUrls) := collect_links lines in
  let stats :=
    {| totalLinks := length allLinks;
       uniqueLinks := length rawUrls;
       duplicates := Z.of_nat (length allLinks) - Z.of_nat (length rawUrls);
       protocolStats_http :=
         length (filter (λ url, startsWith url "http://" = true) rawUrls);
       protocolStats_https :=
         length (filter (λ url, startsWith url "https://" = true) rawUrls);
       domainStats := [];
       topLevelDomainStats := [];
       brokenLinks := [] |} in
  foldl analyse stats rawUrls.

(** The comparator of both link sorts (lines 206-210 and 216-220). *)
Definition compare_links (a b : string) : Z :=
  let urlA := toLowerCase (replace a "* " "") in
  let urlB := toLowerCase (replace b "* " "") in
  localeCompare urlA urlB.

(** Lines 177-188: the key under which a URL is grouped. *)
Definition group_key (url : string) : string :=
  let domain :=
    match URL_hostname url with
    | Some hostname => hostname
    | None =>
        match match_authority url with
        | Some authority => authority
        | None => url
        end
    end in
  strip_www domain.

(** Lines 190-194.  Under an inherited name [domainGroups[domain]] is truthy
    and has no [push]: the call throws a TypeError ([None]). *)
Definition add_to_group (groups : JsObject.object (list string))
    (domain line : string) : option (JsObject.object (list string)) :=
  match JsObject.own groups domain with
  | Some group => Some (JsObject.set groups domain (group ++ [line]))
  | None =>
      if JsObject.inherited domain then None
      else Some (JsObject.set groups domain [line])
  end.

Definition group_links (urls : list string) (m : gmap string string)
  : option (JsObject.object (list string)) :=
  foldl (λ groups url,
           groups ← groups; add_to_group groups (group_key url) (line_of m url))
        (Some []) urls.

(** Lines 198-200. *)
Definition compare_domains (a b : string) : Z :=
  localeCompare (toLowerCase a) (toLowerCase b).

(** Lines 171-221: [sortedLinks], or [None] when grouping throws. *)
Definition sortedLinks (groupByDomain : bool) (ex : Extraction)
  : option (list string) :=
  if groupByDomain then
    domainGroups ← group_links (rawUrls ex) (urlToLineMap ex);
    let sortedDomains := sort compare_domains (JsObject.keys domainGroups) in
    Some (concat
            (map (λ domain,
                    sort compare_links (default [] (JsObject.own domainGroups domain)))
                 sortedDomains))
  else
    Some (sort compare_links (map (line_of (urlToLineMap ex)) (rawUrls ex))).

(** Lines 129-141: the header of a document. *)
Definition headerContent (content : string) : list string :=
  let lines := split_lines content in
  slice0 (headerEndIndex lines) lines.

(** Lines 129-224 of [sortLinks]: [newContent], the text handed to
    [fs.writeFileSync], or [None] when a TypeError ends the run before. *)
Definition newContent (groupByDomain : bool) (content : string) : option string :=
  let lines := split_lines content in
  let ex := extract (drop (headerEndIndex lines) lines) in
  sorted ← sortedLinks groupByDomain ex;
  Some (join LF (headerContent content ++ sorted)).

(** *** [sortLinks] with its effects

    The files the run can see, the console, and the value of [Date.now()]. *)
Record Options : Type := {
  createBackup : bool;
  groupByDomain : bool;
  showStats : bool
}.

Record World : Type := {
  files : gmap string string;
  console : list string
}.

Inductive completion : Type :=
  | Return (stats : Stats)
  | Throw (error : string).

Definition writeFileSync (path data : string) (w : World) : World :=
  {| files := <[path := data]> (files w); console := console w |}.

Definition console_log (lines : list string) (w : World) : World :=
  {| files := files w; console := console w ++ lines |}.

Definition sortLinks (now : Z) (readmePath : string) (options : Options)
    (w : World) : World * completion :=
  match files w !! readmePath with
  | None => (w, Throw "ENOENT")
  | Some content =>
      let w :=
        if createBackup options then
          let backupPath := readmePath +:+ ".backup-" +:+ pretty now in
          console_log [ "Backup created: " +:+ backupPath ]
                      (writeFileSync backupPath content w)
        else w in
      let stats := collectStatistics content in
      let lines := split_lines content in
      let ex := extract (drop (headerEndIndex lines) lines) in
      match sortedLinks (groupByDomain options) ex with
      | None => (w, Throw "TypeError")
      | Some sorted =>
          let w := writeFileSync readmePath
                     (join LF (headerContent content ++ sorted)) w in
          let w := console_log
                     [ "Sorted " +:+ pretty (length sorted)
                       +:+ " links alphabetically"
                       +:+ (if groupByDomain options
                            then " (grouped by domain)" else "")
                       +:+ "!" ] w in
          let w := if showStats options
                   then console_log (printLinkStatistics stats) w else w in
          (w, Return stats)
      end
  end.

End Platform.

(** ** The command line *)

Module Cli.

(** The object [parseArgs] returns; [filePath] is [None] when it is
    [undefined]. *)
Record options : Type := {
  filePath : option string;
  createBackup : bool;
  groupByDomain : bool;
  showStats : bool;
  statsOnly : bool
}.

(** [parseArgs] returns, or prints the help and ends the process. *)
Inductive parsed : Type :=
  | Options (o : options)
  | Help.

Definition defaults : options :=
  {| filePath := Some "README.md"; createBackup := true;
     groupByDomain := false; showStats := true; statsOnly := false |}.

Definition set_filePath (v : option string) (o : options) : options :=
  {| filePath := v; createBackup := createBackup o;
     groupByDomain := groupByDomain o; showStats := showStats o;
     statsOnly := statsOnly o |}.

Definition set_createBackup (v : bool) (o : options) : options :=
  {| filePath := filePath o; createBackup := v;
     groupByDomain := groupByDomain o; showStats := showStats o;
     statsOnly := statsOnly o |}.

Definition set_groupByDomain (v : bool) (o : options) : options :=
  {| filePath := filePath o; createBackup := createBackup o;
     groupByDomain := v; showStats := showStats o;
     statsOnly := statsOnly o |}.

Definition set_showStats (v : bool) (o : options) : options :=
  {| filePath := filePath o; createBackup := createBackup o;
     groupByDomain := groupByDomain o; showStats := v;
     statsOnly := statsOnly o |}.

Definition set_statsOnly (v : bool) (o : options) : options :=
  {| filePath := filePath o; createBackup := createBackup o;
     groupByDomain := groupByDomain o; showStats := showStats o;
     statsOnly := v |}.

(** The loop of [parseArgs] (lines 250-268) from the argument [args] starts
    with.  After [--file] the next argument is taken as the path whatever it
    looks like; when there is none, [args[i + 1]] is [undefined]. *)
Fixpoint parse (args : list string) (o : options) : parsed :=
  match args with
  | [] => Options o
  | arg :: rest =>
      if String.eqb arg "--file" || String.eqb arg "-f" then
        match rest with
        | [] => Options (set_filePath None o)
        | path :: rest' => parse rest' (set_filePath (Some path) o)
        end
      else if String.eqb arg "--no-backup" || String.eqb arg "-n" then
        parse rest (set_createBackup false o)
      else if String.eqb arg "--group-by-domain" || String.eqb arg "-g" then
        parse rest (set_groupByDomain true o)
      else if String.eqb arg "--no-stats" || String.eqb arg "-s" then
        parse rest (set_showStats false o)
      else if String.eqb arg "--stats-only" then
        parse rest (set_statsOnly true o)
      else if String.eqb arg "--help" || String.eqb arg "-h" then
        Help
      else if negb (startsWith arg "-") then
        parse rest (set_filePath (Some arg) o)
      else parse rest o
  end.

(** [parseArgs()], for [args = process.argv.slice(2)]. *)
Definition parseArgs (args : list string) : parsed := parse args defaults.

(** The text [showHelp] prints (lines 275-295). *)
Definition helpText : string :=
  join LF
    [ "";
      "Link Sorter - Sort markdown links alphabetically";
      "";
      "Usage:";
      "  node sortLinks.js [options] [file]";
      "";
      "Options:";
      "  -f, --file           Path to markdown file (default: README.md)";
      "  -n, --no-backup      Don't create a backup file";
      "  -g, --group-by-domain Group links by domain name";
      "  -s, --no-stats       Don't show link statistics";
      "  --stats-only         Only show statistics without sorting";
      "  -h, --help           Show this help message";
      "";
      "Examples:";
      "  node sortLinks.js";
      "  node sortLinks.js LINKS.md";
      "  node sortLinks.js --file LINKS.md --group-by-domain";
      "  node sortLinks.js -f README.md -g -n";
      "  node sortLinks.js --stats-only";
      "" ].

End Cli.

(** How the process ends: [process.exit(code)] or the end of the script
    (code 0), or an exception nobody catches. *)
Inductive exit : Type :=
  | Exit (code : Z)
  | Uncaught (error : string).


(** The world after the run, what went to [console.error], and the end. *)
Record Finished : Type := {
  world : World;
  stderr : list string;
  status : exit
}.

(** [fs.existsSync(path)] *)
Definition existsSync (path : string) (w : World) : bool :=
  bool_decide (is_Some (files w !! path)).

(** Lines 302-303, with [path] as the template prints it. *)
Definition file_missing (path : string) (w : World) : Finished :=
  {| world := w;
     stderr := [ "Error: File " +:+ path +:+ " does not exist." ];
     status := Exit 1 |}.

(** The top level of the script (lines 298-319).  For an [undefined] path
    [fs.existsSync] answers [false] and the template prints [undefined]. *)
Definition main (localeCompare : string → string → Z)
    (URL_hostname : string → option string) (now : Z)
    (args : list string) (w : World) : Finished :=
  match Cli.parseArgs args with
  | Cli.Help =>
      {| world := console_log [Cli.helpText] w; stderr := []; status := Exit 0 |}
  | Cli.Options options =>
      match Cli.filePath options with
      | None => file_missing "undefined" w
      | Some path =>
          if negb (existsSync path w) then file_missing path w
          else if Cli.statsOnly options then
            match files w !! path with
            | None => {| world := w; stderr := []; status := Uncaught "ENOENT" |}
            | Some content =>
                {| world := console_log
                              (printLinkStatistics
                                 (collectStatistics URL_hostname content)) w;
                   stderr := []; status := Exit 0 |}
            end
          else
            let r := sortLinks localeCompare URL_hostname now path
                       {| createBackup := Cli.createBackup options;
                          groupByDomain := Cli.groupByDomain options;
                          showStats := Cli.showStats options |} w in
            {| world := r.1; stderr := [];
               status := match r.2 with
                         | Return _ => Exit 0
                         | Throw error => Uncaught error
                         end |}
      end
  end.

(** ** Reference instances of the platform

    Used where a statement is evaluated on a concrete document. *)

(** Comparison by code units.  On two ASCII strings without capitals whose
    first difference is between two letters or between two digits, ICU's
    root collation gives the same sign. *)
Fixpoint codeunit_compare (a b : string) : Z :=
  match a, b with
  | "", "" => 0
  | "", String _ _ => -1
  | String _ _, "" => 1
  | String x a', String y b' =>
      let d := (Z.of_N (N_of_ascii x) - Z.of_N (N_of_ascii y))%Z in
      if (d =? 0)%Z then codeunit_compare a' b' else d
  end.

Definition is_host_char (c : ascii) : bool :=
  let n := N_of_ascii c in
  ((97 <=? n) && (n <=? 122) || (48 <=? n) && (n <=? 57)
   || (n =? 45) || (n =? 46))%N.

(** A small parser: the host of [http://host/...] and [https://host/...] when
    the host is written in lower-case letters, digits, hyphens and dots, and
    an error for every other string.  On the URLs of the examples below it
    answers as the WHATWG parser does; there a missing host and a string
    with no scheme are errors too. *)
Definition plain_hostname (url : string) : option string :=
  let rest := match after_prefix "https://" url with
              | Some r => Some r
              | None => after_prefix "http://" url
              end in
  match rest with
  | Some r =>
      let host := up_to_slash r in
      if String.eqb host "" then None
      else if all_chars is_host_char host then Some host else None
  | None => None
  end.

(** ** Notions of the statements *)

(** The URL a link line of the output is read as (lines 149-154). *)
Definition url_of_line (line : string) : string :=
  trim (replace (trim line) "* " "").

(** No line feed inside [s]. *)
Definition no_LF (s : string) : bool :=
  all_chars (λ c, negb (Ascii.eqb c "010")) s.

(** A consistent comparator in the sense of ECMAScript's [sort]: equal to
    itself, of opposite signs when its arguments are swapped, transitive. *)
Record Consistent {A : Type} (compare : A → A → Z) : Prop := {
  consistent_refl : ∀ a, compare a a = 0%Z;
  consistent_swap : ∀ a b, (compare a b < 0 ↔ 0 < compare b a)%Z;
  consistent_trans : ∀ a b c,
    (compare a b ≤ 0 → compare b c ≤ 0 → compare a c ≤ 0)%Z
}.

(** [a] may stand before [b] in an array sorted by [compare]. *)
Definition precedes {A : Type} (compare : A → A → Z) (a b : A) : Prop :=
  (compare a b ≤ 0)%Z.

(** The key under which a link line of the output is grouped. *)
Definition line_group_key (URL_hostname : string → option string)
    (line : string) : string :=
  group_key URL_hostname (url_of_line line).

(** The URLs [collectStatistics] counts in a document: all of them, and the
    set of them. *)
Definition counted (content : string) : list string * list string :=
  collect_links (split_lines content).

(** The link loop of [sortLinks] on a document (lines 129-168). *)
Definition extracted (content : string) : Extraction :=
  let lines := split_lines content in
  extract (drop (headerEndIndex lines) lines).

(** The invariant of the link loop over lines that satisfy [P]. *)
Definition extraction_ok (P : string → Prop) (st : Extraction) : Prop :=
  NoDup (rawUrls st)
  ∧ ∀ u, u ∈ rawUrls st →
      u ≠ "" ∧ ∃ rawLine l, P rawLine ∧ classify rawLine = (u, l)
                           ∧ urlToLineMap st !! u = Some l.

(** The sorted links of the flat run on a document (lines 216-220). *)
Definition flat_links (localeCompare : string → string → Z)
    (content : string) : list string :=
  sort (compare_links localeCompare)
       (line_of (urlToLineMap (extracted content)) <$> rawUrls (extracted content)).

(** No white space inside [p]. *)
Definition visible (p : string) : bool :=
  all_chars (λ c, negb (is_white_space c)) p.

(** A line as the link loop stores it: read again, it gives its own URL and
    itself. *)
Definition stored_line (l : string) : Prop :=
  classify l = (url_of_line l, l) ∧ url_of_line l ≠ "".

(** The URLs of [us] grouped under the key [k], in their order. *)
Definition members (URL_hostname : string → option string) (k : string)
    (us : list string) : list string :=
  filter (λ u, group_key URL_hostname u = k) us.

(** [domainGroups] after the URLs [us]: distinct keys, none of them
    inherited, and under each key the lines of its members. *)
Definition groups_ok (URL_hostname : string → option string)
    (m : gmap string string) (us : list string)
    (G : JsObject.object (list string)) : Prop :=
  NoDup G.*1
  ∧ (∀ k, k ∈ G.*1 → JsObject.inherited k = false)
  ∧ ∀ k, JsObject.own G k
         = if decide (members URL_hostname k us = []) then None
           else Some (line_of m <$> members URL_hostname k us).


(** The Line Classifier of the specification: a line is a link line when
    [collectStatistics] and the link loop read a URL from it. *)
Definition is_link_line (line : string) : bool :=
  negb (String.eqb (line_url line) "").

Fixpoint lines_before_first_link (lines : list string) : list string :=
  match lines with
  | [] => []
  | line :: rest =>
      if is_link_line line then [] else line :: lines_before_first_link rest
  end.

(** The header as the Document Splitter of the specification words it: the
    lines strictly before the first link line, the whole document when it
    has no link line. *)
Definition spec_header (content : string) : list string :=
  lines_before_first_link (split_lines content).

(** The URLs read from the link lines of [lines], one per link line, in
    their order. *)
Definition link_urls (lines : list string) : list string :=
  filter (λ u, u ≠ "") (line_url <$> lines).

(** The number a table entry stands for; a text stands for none. *)
Definition count_of (e : string * count) : N :=
  match e.2 with
  | Num n => n
  | Text _ => 0
  end.

(** The entries the report lists of a table (lines 76-78 and 85-87). *)
Definition top_entries (o : JsObject.object count) : list (string * count) :=
  slice0 10 (sort by_count_desc (JsObject.entries o)).

(** The flag [flag] is among the arguments. *)
Definition given (flag : string) (args : list string) : bool :=
  bool_decide (flag ∈ args).

(** The arguments that do not start with a hyphen. *)
Definition positional (args : list string) : list string :=
  filter (λ arg, startsWith arg "-" = false) args.

(** What [parseArgs] makes of arguments without [--file], [-f], [--help]
    and [-h], starting from the options [o]: the last positional argument
    is the path, and each flag switches its option one way. *)
Definition options_of (args : list string) (o : Cli.options) : Cli.options :=
  {| Cli.filePath := match last (positional args) with
                     | Some path => Some path
                     | None => Cli.filePath o
                     end;
     Cli.createBackup :=
       Cli.createBackup o && negb (given "--no-backup" args || given "-n" args);
     Cli.groupByDomain :=
       Cli.groupByDomain o || given "--group-by-domain" args || given "-g" args;
     Cli.showStats :=
       Cli.showStats o && negb (given "--no-stats" args || given "-s" args);
     Cli.statsOnly := Cli.statsOnly o || given "--stats-only" args |}.

(** The path such arguments name: the last positional one, or the default. *)
Definition path_of (args : list string) : string :=
  default "README.md" (last (positional args)).

(** The options of such arguments, from the defaults. *)
Definition options_given (args : list string) : Cli.options :=
  {| Cli.filePath := Some (path_of args);
     Cli.createBackup := negb (given "--no-backup" args || given "-n" args);
     Cli.groupByDomain := given "--group-by-domain" args || given "-g" args;
     Cli.showStats := negb (given "--no-stats" args || given "-s" args);
     Cli.statsOnly := given "--stats-only" args |}.

(** The name of the backup [sortLinks] writes at the time [now]. *)
Definition backup_of (path : string) (now : Z) : string :=
  path +:+ ".backup-" +:+ pretty now.

(** No character of [s] is a dot. *)
Definition no_dot (s : string) : bool :=
  all_chars (λ c, negb (Ascii.eqb c ".")) s.


(** *** The group key in the words of the specification *)




(** [a] stands before [b] in [l]. *)
Definition before {A : Type} (l : list A) (a b : A) : Prop :=
  ∃ i j, l !! i = Some a ∧ l !! j = Some b ∧ i < j.

(** The order in which [Object.keys] may list two own keys: array indices
    by their number, and before every other key. *)
Definition keys_first (d1 d2 : string) : Prop :=
  match JsObject.array_index d1, JsObject.array_index d2 with
  | Some n1, Some n2 => (n1 ≤ n2)%N
  | Some _, None => True
  | None, Some _ => False
  | None, None => True
  end.

(** Link lines in groups as the grouped run writes them: under distinct
    keys that are not inherited names, each group with lines of its key in
    the order of the links, and the keys in the order of the domains, tied
    keys in the order of [Object.keys]. *)
Definition grouped_chunks (localeCompare : string → string → Z)
    (URL_hostname : string → option string)
    (cs : list (string * list string)) : Prop :=
  NoDup cs.*1
  ∧ (∀ d c, (d, c) ∈ cs →
       c ≠ [] ∧ JsObject.inherited d = false
       ∧ Forall (λ A, line_group_key URL_hostname A = d) c
       ∧ StronglySorted (precedes (compare_links localeCompare)) c)
  ∧ ∀ d1 d2, before cs.*1 d1 d2 →
      (compare_domains localeCompare d1 d2 ≤ 0)%Z
      ∧ ((compare_domains localeCompare d2 d1 ≤ 0)%Z → keys_first d1 d2).

(** ** Documents of the scenarios *)

Definition scenario1 : string :=
  "# Links" +:+ LF +:+ "* https://b.com/x" +:+ LF +:+ "* https://a.com/y" +:+ LF.

Definition scenario4 : string := "* ftp://bad::url" +:+ LF.

Definition scenario5 : string :=
  "* https://sub.a.com/1" +:+ LF +:+ "* https://www.a.com/2" +:+ LF
  +:+ "* https://b.com/3" +:+ LF.

(** A line of prose that starts with [https] before the only link. *)
Definition prose_before_link : string :=
  "# Notes" +:+ LF +:+ "https is a protocol" +:+ LF +:+ "* https://a.com".

(** The same with words between the bullet and the URL. *)
Definition prose_before_see_link : string :=
  "# Notes" +:+ LF +:+ "https is a protocol" +:+ LF +:+ "* see https://a.com".

(** A document without any link. *)
Definition notes_only : string := "# Notes" +:+ LF +:+ "nothing to sort here".



(** * Properties *)

(** ** The definitions at work *)

Example trim_line :
  trim (String "009" "  * a b  " +:+ String "013" "") = "* a b".
Proof. reflexivity. Qed.

Example split_trailing_newline :
  split_lines ("a" +:+ LF +:+ "b" +:+ LF) = ["a"; "b"; ""].
Proof. reflexivity. Qed.

Example replace_first_only : replace "* a* b" "* " "" = "a* b".
Proof. reflexivity. Qed.

Example lower_case : toLowerCase "HTTPS://A.Com/X_1" = "https://a.com/x_1".
Proof. reflexivity. Qed.

Example tld_examples :
  tld_of "a.com" = "com" ∧ tld_of "localhost" = "unknown"
  ∧ tld_of "a.com." = "unknown".
Proof. split_and!; reflexivity. Qed.

Example authority_examples :
  match_authority "see http://x.org/a" = Some "x.org"
  ∧ match_authority "http:///x" = None
  ∧ match_authority "https://www.a.com:bad/p" = Some "www.a.com:bad".
Proof. split_and!; reflexivity. Qed.

Example keys_order :
  JsObject.keys [("b", 1); ("10", 2); ("2", 3); ("a", 4); ("01", 5)]
  = ["2"; "10"; "b"; "a"; "01"].
Proof. reflexivity. Qed.

Example increment_examples :
  increment (increment [] "a.com") "a.com" = [("a.com", Num 2)]
  ∧ increment [] "constructor"
    = [("constructor", Text "function Object() { [native code] }1")]
  ∧ increment [("a.com", Num 1)] "__proto__" = [("a.com", Num 1)].
Proof. split_and!; reflexivity. Qed.

Example percent_examples :
  percent (JsNumber.of_N 1) 3 = "33" ∧ percent (JsNumber.of_N 2) 3 = "67"
  ∧ percent (JsNumber.of_N 1) 200 = "1" ∧ percent (JsNumber.of_N 3) 3 = "100"
  ∧ percent (JsNumber.of_N 0) 0 = "NaN" ∧ percent (JsNumber.of_N 1) 0 = "Infinity"
  ∧ JsNumber.toString (JsNumber.Math_round (-2.5)) = "-2"
  ∧ JsNumber.toString (JsNumber.Math_round 2.5) = "3".
Proof. split_and!; reflexivity. Qed.

Example sort_is_stable :
  sort by_count_desc [("a", Num 1); ("b", Num 2); ("c", Num 1)]
  = [("b", Num 2); ("a", Num 1); ("c", Num 1)].
Proof. reflexivity. Qed.

Example statistics_printed :
  printLinkStatistics (collectStatistics plain_hostname scenario1)
  = [ LF +:+ "=== LINK STATISTICS ===";
      "Total links: 2"; "Unique links: 2"; "Duplicate links: 0";
      LF +:+ "Protocol usage:";
      "  HTTP: 0 (0%)"; "  HTTPS: 2 (100%)";
      LF +:+ "Top 10 domains by link count:";
      "  b.com: 1 links"; "  a.com: 1 links";
      LF +:+ "Top-level domains:";
      "  .com: 2 links (100%)";
      LF +:+ "======================" ].
Proof. reflexivity. Qed.

(** ** Strings *)

Section string_facts.

Implicit Types (s p r : string) (c : ascii).

Lemma app_empty s : "" +:+ s = s.
Proof. reflexivity. Qed.

Lemma app_cons c p s : String c p +:+ s = String c (p +:+ s).
Proof. reflexivity. Qed.

Lemma after_prefix_app p s : after_prefix p (p +:+ s) = Some s.
Proof.
  induction p as [|a p IH]; [done|].
  rewrite app_cons. cbn. by rewrite Ascii.eqb_refl.
Qed.

Lemma after_prefix_Some p s r : after_prefix p s = Some r → s = p +:+ r.
Proof.
  revert s. induction p as [|a p IH]; intros s; cbn.
  - by intros [= ->].
  - destruct s as [|b s]; [done|].
    destruct (Ascii.eqb a b) eqn:E; [|done].
    apply Ascii.eqb_eq in E as ->. intros H.
    by rewrite app_cons, <- (IH _ H).
Qed.

Lemma startsWith_true s p : startsWith s p = true ↔ ∃ r, s = p +:+ r.
Proof.
  unfold startsWith. split.
  - destruct (after_prefix p s) eqn:E; [|done]. intros _.
    eexists. by apply after_prefix_Some.
  - intros [r ->]. by rewrite after_prefix_app.
Qed.

Lemma trimStart_head s c r :
  trimStart s = String c r → is_white_space c = false.
Proof.
  induction s as [|a s IH]; cbn; [done|].
  destruct (is_white_space a) eqn:E; [done|]. by intros [= <- _].
Qed.

Lemma trimEnd_cons c s :
  is_white_space c = false → trimEnd (String c s) = String c (trimEnd s).
Proof. intros H. cbn. rewrite H. by destruct (trimEnd s). Qed.

Lemma trimEnd_idem s : trimEnd (trimEnd s) = trimEnd s.
Proof.
  induction s as [|c s IH]; [done|].
  cbn. destruct (trimEnd s) as [|a r] eqn:E.
  - destruct (is_white_space c) eqn:W; [done|]. cbn. by rewrite W.
  - change (trimEnd (String c (String a r)) = String c (String a r)).
    rewrite <- E in IH |- *. cbn [trimEnd]. rewrite IH.
    by rewrite E.
Qed.

Lemma trimStart_fixed c s :
  is_white_space c = false → trimStart (String c s) = String c s.
Proof. intros H. cbn. by rewrite H. Qed.

Lemma trim_cons c s :
  is_white_space c = false → trim (String c s) = String c (trimEnd s).
Proof.
  intros H. unfold trim. by rewrite trimStart_fixed, trimEnd_cons.
Qed.

(** [trim s] is empty or starts with a character that is no white space. *)
Lemma trim_shape s :
  trim s = "" ∨ ∃ c r, is_white_space c = false ∧ trimStart s = String c r
                        ∧ trim s = String c (trimEnd r).
Proof.
  unfold trim. destruct (trimStart s) as [|c r] eqn:E; [by left|].
  right. exists c, r. pose proof (trimStart_head _ _ _ E) as W.
  by rewrite trimEnd_cons.
Qed.

Lemma trim_idem s : trim (trim s) = trim s.
Proof.
  destruct (trim_shape s) as [-> | (c & r & W & _ & ->)]; [done|].
  by rewrite trim_cons, trimEnd_idem.
Qed.

Lemma trimEnd_trim s : trimEnd (trim s) = trim s.
Proof. apply trimEnd_idem. Qed.

(** A bullet put in front of a trimmed, non-empty text: trimming changes
    nothing and removing the bullet gives the text back. *)
Lemma trim_bullet s :
  trim s ≠ "" → trim ("* " +:+ trim s) = "* " +:+ trim s.
Proof.
  intros Hne. rewrite !app_cons, app_empty.
  rewrite trim_cons by done.
  f_equal. cbn [trimEnd]. rewrite trimEnd_trim.
  destruct (trim s); [done|]. done.
Qed.

Lemma replace_bullet s : replace ("* " +:+ s) "* " "" = s.
Proof.
  rewrite !app_cons, app_empty. by destruct s.
Qed.

Lemma url_of_bullet_line s :
  trim s ≠ "" → url_of_line ("* " +:+ trim s) = trim s.
Proof.
  intros Hne. unfold url_of_line.
  by rewrite trim_bullet, replace_bullet, trim_idem.
Qed.

(** *** Characters of the results *)

Lemma all_chars_app f s r :
  all_chars f (s +:+ r) = all_chars f s && all_chars f r.
Proof.
  induction s as [|c s IH]; [done|].
  rewrite app_cons. cbn. by rewrite IH, andb_assoc.
Qed.

Lemma all_chars_trimStart f s :
  all_chars f s = true → all_chars f (trimStart s) = true.
Proof.
  induction s as [|c s IH]; [done|]. cbn.
  intros [Hc Hs]%andb_true_iff.
  destruct (is_white_space c); [by apply IH|]. cbn. by rewrite Hc, Hs.
Qed.

Lemma all_chars_trimEnd f s :
  all_chars f s = true → all_chars f (trimEnd s) = true.
Proof.
  induction s as [|c s IH]; [done|]. cbn.
  intros [Hc Hs]%andb_true_iff. specialize (IH Hs).
  destruct (trimEnd s) as [|a r].
  - destruct (is_white_space c); [done|]. cbn. by rewrite Hc.
  - cbn in *. by rewrite Hc, IH.
Qed.

Lemma all_chars_trim f s : all_chars f s = true → all_chars f (trim s) = true.
Proof. intros. by apply all_chars_trimEnd, all_chars_trimStart. Qed.

Lemma all_chars_after_prefix f p s r :
  after_prefix p s = Some r → all_chars f s = true → all_chars f r = true.
Proof.
  intros ->%after_prefix_Some. rewrite all_chars_app.
  by intros [_ ?]%andb_true_iff.
Qed.

Lemma all_chars_replace f s pat :
  all_chars f s = true → all_chars f (replace s pat "") = true.
Proof.
  induction s as [|c s IH]; cbn [replace].
  - destruct (after_prefix pat "") eqn:E; [|done].
    intros H. rewrite app_empty. by eapply all_chars_after_prefix.
  - destruct (after_prefix pat (String c s)) eqn:E.
    + intros H. rewrite app_empty. by eapply all_chars_after_prefix.
    + cbn. intros [Hc Hs]%andb_true_iff. by rewrite Hc, IH.
Qed.

(** *** [split] and [join] *)

Lemma split_lines_nonempty s : split_lines s ≠ [].
Proof.
  destruct s as [|c s]; [done|]. cbn.
  destruct (Ascii.eqb c "010"); [done|]. by destruct (split_lines s).
Qed.

Lemma split_lines_no_LF s : Forall (λ l, no_LF l = true) (split_lines s).
Proof.
  induction s as [|c s IH]; [by repeat constructor|].
  cbn. destruct (Ascii.eqb c "010") eqn:E; [by constructor|].
  destruct (split_lines s) as [|l ls]; [by repeat constructor; cbn; rewrite E|].
  inversion_clear IH. constructor; [|done].
  unfold no_LF in *. cbn. by rewrite E.
Qed.

Lemma split_lines_line s r :
  no_LF s = true →
  split_lines (s +:+ LF +:+ r) = s :: split_lines r.
Proof.
  induction s as [|c s IH]; [done|].
  unfold no_LF. cbn [all_chars]. intros [Hc Hs]%andb_true_iff.
  rewrite app_cons. cbn [split_lines].
  apply negb_true_iff in Hc. rewrite Hc. by rewrite IH.
Qed.

Lemma split_lines_single s : no_LF s = true → split_lines s = [s].
Proof.
  induction s as [|c s IH]; [done|].
  unfold no_LF. cbn [all_chars]. intros [Hc Hs]%andb_true_iff.
  cbn [split_lines]. apply negb_true_iff in Hc. rewrite Hc. by rewrite IH.
Qed.

(** Splitting what [join] made of lines gives the lines back. *)
Lemma split_lines_join l :
  l ≠ [] → Forall (λ s, no_LF s = true) l → split_lines (join LF l) = l.
Proof.
  induction l as [|s l IH]; [done|]. intros _ H.
  inversion_clear H as [|? ? Hs Hl].
  destruct l as [|s' l].
  - by apply split_lines_single.
  - change (join LF (s :: s' :: l)) with (s +:+ LF +:+ join LF (s' :: l)).
    rewrite split_lines_line by done. f_equal. by apply IH.
Qed.

End string_facts.

(** ** Sorting *)

Section sort_facts.

Context {A : Type} (compare : A → A → Z).

Lemma insert_sorted_perm x l : insert_sorted compare x l ≡ₚ x :: l.
Proof.
  induction l as [|y l IH]; [done|]. cbn.
  destruct (0 <? compare x y)%Z; [|done].
  by rewrite IH, Permutation_swap.
Qed.

Lemma sort_perm l : sort compare l ≡ₚ l.
Proof.
  induction l as [|x l IH]; [done|].
  unfold sort in *. cbn. by rewrite insert_sorted_perm, IH.
Qed.

Lemma elem_of_sort x l : x ∈ sort compare l ↔ x ∈ l.
Proof. by rewrite sort_perm. Qed.

Lemma sort_nil : sort compare [] = [].
Proof. done. Qed.

Lemma length_sort l : length (sort compare l) = length l.
Proof. by rewrite sort_perm. Qed.

Hypothesis consistent : Consistent compare.

Lemma insert_sorted_sorted x l :
  StronglySorted (precedes compare) l → StronglySorted (precedes compare) (insert_sorted compare x l).
Proof.
  induction l as [|y l IH]; intros Hl; cbn.
  - by repeat constructor.
  - apply StronglySorted_cons in Hl as [Hy Hl].
    destruct (0 <? compare x y)%Z eqn:E.
    + apply Z.ltb_lt in E.
      apply StronglySorted_cons. split; [|by apply IH].
      rewrite insert_sorted_perm. constructor; [|done].
      unfold precedes. apply (consistent_swap _ consistent) in E. lia.
    + apply Z.ltb_ge in E.
      apply StronglySorted_cons. split.
      * constructor; [done|].
        eapply Forall_impl; [exact Hy|]. intros z Hz.
        by eapply (consistent_trans _ consistent).
      * by apply StronglySorted_cons.
Qed.

Lemma sort_sorted l : StronglySorted (precedes compare) (sort compare l).
Proof.
  induction l as [|x l IH]; [constructor|].
  by apply insert_sorted_sorted.
Qed.

(** A list in order is left as it is. *)
Lemma sort_id l : StronglySorted (precedes compare) l → sort compare l = l.
Proof.
  induction l as [|x l IH]; [done|].
  intros [Hx Hl]%StronglySorted_cons. unfold sort in *. cbn.
  rewrite IH by done. destruct l as [|y l]; [done|]. cbn.
  inversion_clear Hx as [|? ? Hxy _]. unfold precedes in Hxy.
  destruct (0 <? compare x y)%Z eqn:E; [|done].
  apply Z.ltb_lt in E. lia.
Qed.

End sort_facts.

Lemma StronglySorted_lookup {A} (R : relation A) l i j a b :
  StronglySorted R l → l !! i = Some a → l !! j = Some b → i < j → R a b.
Proof.
  intros Hl. revert i j. induction Hl as [|x l Hl IH Hx]; intros i j; [done|].
  destruct i as [|i], j as [|j]; cbn; try lia.
  - intros [= <-] Hb _. rewrite Forall_forall in Hx.
    apply Hx. by eapply list_elem_of_lookup_2.
  - intros Ha Hb Hij. apply (IH i j); [done|done|lia].
Qed.

(** A comparator read through a function is consistent as well. *)
Lemma Consistent_on {A B} (compare : B → B → Z) (f : A → B) :
  Consistent compare → Consistent (λ a b, compare (f a) (f b)).
Proof.
  intros [Hr Hs Ht]. split; intros.
  - apply Hr.
  - apply Hs.
  - by eapply Ht.
Qed.

(** ** Reading lines *)

Section line_facts.

Implicit Types (rawLine line url u l : string).

(** Both loops read the same URL from a line. *)
Lemma classify_url rawLine : (classify rawLine).1 = line_url rawLine.
Proof.
  unfold classify, line_url.
  destruct (startsWith (trim rawLine) "* "
            && (includes (trim rawLine) "http://"
                || includes (trim rawLine) "https://")); [done|].
  by destruct (startsWith (trim rawLine) "http://"
               || startsWith (trim rawLine) "https://").
Qed.

Lemma startsWith_bullet s : startsWith ("* " +:+ s) "* " = true.
Proof. apply startsWith_true. by exists s. Qed.

Lemma no_LF_bullet s : no_LF s = true → no_LF ("* " +:+ s) = true.
Proof. unfold no_LF. rewrite all_chars_app. by intros ->. Qed.

(** What the link loop stores for a link line: a line that starts with the
    bullet, reads as the same URL again, and has a line feed only if the
    line it came from had one. *)
Lemma classify_link rawLine u l :
  classify rawLine = (u, l) → u ≠ "" →
  startsWith l "* " = true ∧ url_of_line l = u
  ∧ (no_LF rawLine = true → no_LF l = true).
Proof.
  unfold classify.
  destruct (startsWith (trim rawLine) "* "
            && (includes (trim rawLine) "http://"
                || includes (trim rawLine) "https://")).
  - destruct (startsWith rawLine "* ") eqn:E; cbn [negb];
      intros [= Hu' Hl'] Hu; subst u l.
    + done.
    + split_and!.
      * apply startsWith_bullet.
      * by apply url_of_bullet_line.
      * intros H. apply no_LF_bullet.
        by apply all_chars_trim, all_chars_replace, all_chars_trim.
  - destruct (startsWith (trim rawLine) "http://"
              || startsWith (trim rawLine) "https://");
      intros [= Hu' Hl'] Hu; subst u l; [|done].
    split_and!.
    + apply startsWith_bullet.
    + by apply url_of_bullet_line.
    + intros H. apply no_LF_bullet. by apply all_chars_trim.
Qed.

Lemma elem_of_Set_add (s : list string) x y : y ∈ Set_add s x ↔ y ∈ s ∨ y = x.
Proof.
  unfold Set_add. case_bool_decide.
  - split; [by left|]. by intros [?| ->].
  - by rewrite elem_of_app, list_elem_of_singleton.
Qed.

Lemma NoDup_Set_add (s : list string) x : NoDup s → NoDup (Set_add s x).
Proof.
  unfold Set_add. case_bool_decide; [done|].
  intros. apply NoDup_app. split_and!; [done| |apply NoDup_singleton].
  by intros y Hy ->%list_elem_of_singleton.
Qed.

Lemma extract_line_ok (P : string → Prop) st rawLine :
  P rawLine → extraction_ok P st → extraction_ok P (extract_line st rawLine).
Proof.
  intros HP [Hnd Hst]. unfold extract_line.
  destruct (classify rawLine) as [url originalLine] eqn:Hc.
  destruct (String.eqb url "") eqn:E; [done|].
  apply String.eqb_neq in E. split; cbn.
  - by apply NoDup_Set_add.
  - intros u [Hu| ->]%elem_of_Set_add.
    + destruct (Hst u Hu) as (Hne & r & l & Hr & Hcl & Hl).
      split; [done|]. destruct (decide (url = u)) as [->|Hneq].
      * exists rawLine, originalLine. by rewrite lookup_insert_eq.
      * exists r, l. by rewrite lookup_insert_ne.
    + split; [done|]. exists rawLine, originalLine. by rewrite lookup_insert_eq.
Qed.

Lemma foldl_extract_ok (P : string → Prop) body st :
  Forall P body → extraction_ok P st →
  extraction_ok P (foldl extract_line st body).
Proof.
  revert st. induction body as [|r body IH]; intros st Hb Hst; [done|].
  inversion_clear Hb. cbn. apply IH; [done|]. by apply extract_line_ok.
Qed.

Lemma extract_ok (P : string → Prop) body :
  Forall P body → extraction_ok P (extract body).
Proof.
  intros. apply foldl_extract_ok; [done|].
  split; [constructor|]. cbn. by intros u ?%elem_of_nil.
Qed.

(** Every URL of the set has its line in the map; the line starts with the
    bullet and reads as that URL. *)
Lemma extract_lookup body u :
  u ∈ rawUrls (extract body) →
  urlToLineMap (extract body) !! u = Some (line_of (urlToLineMap (extract body)) u)
  ∧ startsWith (line_of (urlToLineMap (extract body)) u) "* " = true
  ∧ url_of_line (line_of (urlToLineMap (extract body)) u) = u
  ∧ (Forall (λ r, no_LF r = true) body →
     no_LF (line_of (urlToLineMap (extract body)) u) = true).
Proof.
  intros Hu. split_and!.
  - destruct (extract_ok (λ _, True) body) as [_ H]; [by apply Forall_true|].
    destruct (H u Hu) as (_ & r & l & _ & _ & Hl).
    unfold line_of. by rewrite Hl.
  - destruct (extract_ok (λ _, True) body) as [_ H]; [by apply Forall_true|].
    destruct (H u Hu) as (Hne & r & l & _ & Hc & Hl).
    unfold line_of. rewrite Hl. cbn. by eapply classify_link.
  - destruct (extract_ok (λ _, True) body) as [_ H]; [by apply Forall_true|].
    destruct (H u Hu) as (Hne & r & l & _ & Hc & Hl).
    unfold line_of. rewrite Hl. cbn. by eapply classify_link.
  - intros Hb.
    destruct (extract_ok (λ r, no_LF r = true) body Hb) as [_ H].
    destruct (H u Hu) as (Hne & r & l & Hr & Hc & Hl).
    unfold line_of. rewrite Hl. cbn.
    by eapply (classify_link r u l).
Qed.

Lemma extract_NoDup body : NoDup (rawUrls (extract body)).
Proof.
  by destruct (extract_ok (λ _, True) body) as [? _]; [apply Forall_true|].
Qed.

End line_facts.

(** ** Statistics *)

Section statistics_facts.

Context (URL_hostname : string → option string).

Lemma foldl_analyse_counts st urls :
  totalLinks (foldl (analyse URL_hostname) st urls) = totalLinks st
  ∧ uniqueLinks (foldl (analyse URL_hostname) st urls) = uniqueLinks st
  ∧ duplicates (foldl (analyse URL_hostname) st urls) = duplicates st
  ∧ protocolStats_http (foldl (analyse URL_hostname) st urls) = protocolStats_http st
  ∧ protocolStats_https (foldl (analyse URL_hostname) st urls) = protocolStats_https st.
Proof.
  revert st. induction urls as [|u urls IH]; intros st; [done|].
  cbn [foldl]. destruct (IH (analyse URL_hostname st u)) as (-> & -> & -> & -> & ->).
  unfold analyse. by destruct (URL_hostname u).
Qed.

Lemma foldl_analyse_broken st urls :
  brokenLinks (foldl (analyse URL_hostname) st urls)
  = brokenLinks st ++ filter (λ u, URL_hostname u = None) urls.
Proof.
  revert st. induction urls as [|u urls IH]; intros st.
  - by rewrite app_nil_r.
  - cbn [foldl]. rewrite IH, filter_cons. unfold analyse.
    destruct (URL_hostname u) eqn:E; cbn.
    + by rewrite decide_False.
    + rewrite decide_True by done. by rewrite <- app_assoc.
Qed.

Lemma foldl_analyse_domains st urls :
  domainStats (foldl (analyse URL_hostname) st urls)
  = foldl increment (domainStats st) (strip_www <$> omap URL_hostname urls).
Proof.
  revert st. induction urls as [|u urls IH]; intros st; [done|].
  cbn [foldl omap list_omap]. rewrite IH. unfold analyse.
  by destruct (URL_hostname u).
Qed.

Lemma foldl_analyse_tlds st urls :
  topLevelDomainStats (foldl (analyse URL_hostname) st urls)
  = foldl increment (topLevelDomainStats st)
          ((λ h, tld_of (strip_www h)) <$> omap URL_hostname urls).
Proof.
  revert st. induction urls as [|u urls IH]; intros st; [done|].
  cbn [foldl omap list_omap]. rewrite IH. unfold analyse.
  by destruct (URL_hostname u).
Qed.

Lemma collectStatistics_counts content :
  totalLinks (collectStatistics URL_hostname content) = length (counted content).1
  ∧ uniqueLinks (collectStatistics URL_hostname content) = length (counted content).2
  ∧ duplicates (collectStatistics URL_hostname content)
    = (Z.of_nat (length (counted content).1)
       - Z.of_nat (length (counted content).2))%Z
  ∧ protocolStats_http (collectStatistics URL_hostname content)
    = length (filter (λ url, startsWith url "http://" = true) (counted content).2)
  ∧ protocolStats_https (collectStatistics URL_hostname content)
    = length (filter (λ url, startsWith url "https://" = true) (counted content).2).
Proof.
  unfold collectStatistics, counted.
  destruct (collect_links (split_lines content)) as [all urls].
  apply foldl_analyse_counts.
Qed.

Lemma collectStatistics_tables content :
  brokenLinks (collectStatistics URL_hostname content)
  = filter (λ u, URL_hostname u = None) (counted content).2
  ∧ domainStats (collectStatistics URL_hostname content)
    = foldl increment [] (strip_www <$> omap URL_hostname (counted content).2)
  ∧ topLevelDomainStats (collectStatistics URL_hostname content)
    = foldl increment []
        ((λ h, tld_of (strip_www h)) <$> omap URL_hostname (counted content).2).
Proof.
  unfold collectStatistics, counted.
  destruct (collect_links (split_lines content)) as [all urls].
  by rewrite foldl_analyse_broken, foldl_analyse_domains, foldl_analyse_tlds.
Qed.

Lemma http_not_https u :
  startsWith u "http://" = true → startsWith u "https://" = false.
Proof. intros [r ->]%startsWith_true. reflexivity. Qed.

Lemma length_filter_disjoint {A} (P Q : A → Prop)
    `{∀ x, Decision (P x)} `{∀ x, Decision (Q x)} (l : list A) :
  (∀ x, P x → ¬ Q x) → length (filter P l) + length (filter Q l) ≤ length l.
Proof.
  intros HPQ. induction l as [|x l IH]; [done|].
  rewrite !filter_cons. destruct (decide (P x)) as [HP|], (decide (Q x)); cbn; try lia.
  by destruct (HPQ x HP).
Qed.

End statistics_facts.

(** ** Claims about the statistics *)

(** C10: the two protocol counts never exceed the number of unique links, and
    the bulleted line [* see http://x] is a unique link whose URL
    [see http://x] falls in neither count, so that both percentages print
    as 0% and do not add up to 100%. *)
Theorem protocol_counts_bounded :
  (∀ URL_hostname content,
     let st := collectStatistics URL_hostname content in
     protocolStats_http st + protocolStats_https st ≤ uniqueLinks st)
  ∧ (∀ URL_hostname,
       let st := collectStatistics URL_hostname "* see http://x" in
       (counted "* see http://x").2 = ["see http://x"]
       ∧ startsWith "see http://x" "http://" = false
       ∧ startsWith "see http://x" "https://" = false
       ∧ uniqueLinks st = 1
       ∧ protocolStats_http st = 0 ∧ protocolStats_https st = 0
       ∧ protocolStats_http st + protocolStats_https st < uniqueLinks st
       ∧ protocol_lines st = ["  HTTP: 0 (0%)"; "  HTTPS: 0 (0%)"]).
Proof.
  split.
  - intros uh content st. subst st.
    destruct (collectStatistics_counts uh content) as (_ & -> & _ & -> & ->).
    apply length_filter_disjoint. intros u Hu. by rewrite (http_not_https u Hu).
  - intros uh st. subst st.
    destruct (collectStatistics_counts uh "* see http://x") as (_ & Hu & _ & Hh & Hs).
    assert (protocolStats_http (collectStatistics uh "* see http://x") = 0) as H1
      by (rewrite Hh; reflexivity).
    assert (protocolStats_https (collectStatistics uh "* see http://x") = 0) as H2
      by (rewrite Hs; reflexivity).
    assert (uniqueLinks (collectStatistics uh "* see http://x") = 1) as H3
      by (rewrite Hu; reflexivity).
    unfold protocol_lines. rewrite H1, H2, H3.
    split_and!; try reflexivity. lia.
Qed.

(** C5 (as the script behaves): with no unique link both protocol
    percentages are 0 / 0, which prints as NaN%, and no line about a
    top-level domain is printed at all. *)
Theorem percentages_without_links URL_hostname content :
  uniqueLinks (collectStatistics URL_hostname content) = 0 →
  protocol_lines (collectStatistics URL_hostname content)
  = ["  HTTP: 0 (NaN%)"; "  HTTPS: 0 (NaN%)"]
  ∧ tld_lines (collectStatistics URL_hostname content) = [].
Proof.
  intros H0.
  destruct (collectStatistics_counts URL_hostname content) as (_ & Hu & _ & Hh & Hs).
  destruct (collectStatistics_tables URL_hostname content) as (_ & _ & Ht).
  rewrite H0 in Hu. symmetry in Hu. apply nil_length_inv in Hu.
  rewrite Hu in Hh, Hs, Ht. cbn in Hh, Hs, Ht.
  unfold protocol_lines, tld_lines. rewrite H0, Hh, Hs, Ht.
  split; reflexivity.
Qed.

Lemma percentages_without_links_witness :
  uniqueLinks (collectStatistics plain_hostname notes_only) = 0
  ∧ protocol_lines (collectStatistics plain_hostname notes_only)
    = ["  HTTP: 0 (NaN%)"; "  HTTPS: 0 (NaN%)"]
  ∧ tld_lines (collectStatistics plain_hostname notes_only) = [].
Proof.
  split; [reflexivity|].
  apply (percentages_without_links plain_hostname notes_only). reflexivity.
Defined.

(** C5 as stated fails: for a document without links the two protocol lines
    show NaN%, not 0%. *)
Lemma percentages_without_links_not_zero :
  uniqueLinks (collectStatistics plain_hostname notes_only) = 0
  ∧ protocol_lines (collectStatistics plain_hostname notes_only)
    = ["  HTTP: 0 (NaN%)"; "  HTTPS: 0 (NaN%)"]
  ∧ percentage (JsNumber.of_N 0) 0 = PrimFloat.nan.
Proof. split_and!; reflexivity. Qed.

(** C7 (as the script behaves): the line of scenario 4 has no [http://] and
    no [https://], so it is no link line: nothing is counted, nothing is
    broken, every table is empty. *)
Theorem scenario4_statistics :
  line_url "* ftp://bad::url" = ""
  ∧ ∀ URL_hostname,
      collectStatistics URL_hostname scenario4
      = {| totalLinks := 0; uniqueLinks := 0; duplicates := 0;
           protocolStats_http := 0; protocolStats_https := 0;
           domainStats := []; topLevelDomainStats := []; brokenLinks := [] |}.
Proof. split; [reflexivity|]. intros uh. reflexivity. Qed.

(** C7 as stated fails: the statistics of scenario 4 count no unique link and
    list no broken link. *)
Lemma scenario4_counts_nothing :
  uniqueLinks (collectStatistics plain_hostname scenario4) = 0
  ∧ brokenLinks (collectStatistics plain_hostname scenario4) = [].
Proof. split; reflexivity. Qed.

(** C4 (as the script behaves): the broken links are the unique URLs the
    parser rejects, in their order; the domain and TLD tables are built from
    the hosts of the URLs it accepts and from nothing else; the two protocol
    counts are counts of prefixes over all unique URLs, rejected ones
    included. *)
Theorem broken_links_and_tables URL_hostname content :
  let st := collectStatistics URL_hostname content in
  let urls := (counted content).2 in
  (∀ u, u ∈ brokenLinks st ↔ u ∈ urls ∧ URL_hostname u = None)
  ∧ brokenLinks st = filter (λ u, URL_hostname u = None) urls
  ∧ domainStats st
    = foldl increment [] (strip_www <$> omap URL_hostname urls)
  ∧ topLevelDomainStats st
    = foldl increment [] ((λ h, tld_of (strip_www h)) <$> omap URL_hostname urls)
  ∧ protocolStats_http st
    = length (filter (λ u, startsWith u "http://" = true) urls)
  ∧ protocolStats_https st
    = length (filter (λ u, startsWith u "https://" = true) urls).
Proof.
  intros st urls. subst st urls.
  destruct (collectStatistics_counts URL_hostname content) as (_ & _ & _ & -> & ->).
  destruct (collectStatistics_tables URL_hostname content) as (-> & -> & ->).
  split_and!; try done.
  intros u. rewrite list_elem_of_filter. tauto.
Qed.

(** C4 as stated fails: [http://] has no host, the parser rejects it, it is
    listed as broken, and it is counted under the HTTP protocol all the
    same. *)
Lemma broken_link_counted_as_http :
  plain_hostname "http://" = None
  ∧ brokenLinks (collectStatistics plain_hostname ("* http://" +:+ LF)) = ["http://"]
  ∧ protocolStats_http (collectStatistics plain_hostname ("* http://" +:+ LF)) = 1.
Proof. split_and!; reflexivity. Qed.

(** ** Scenario 1 *)

Lemma codeunit_compare_refl a : codeunit_compare a a = 0%Z.
Proof.
  induction a as [|x a IH]; [done|]. cbn.
  by rewrite Z.sub_diag.
Qed.

Lemma codeunit_compare_swap a b :
  (codeunit_compare a b < 0 ↔ 0 < codeunit_compare b a)%Z.
Proof.
  revert b. induction a as [|x a IH]; intros [|y b]; cbn; try lia.
  destruct (Z.eqb_spec (Z.of_N (N_of_ascii x) - Z.of_N (N_of_ascii y)) 0) as [E|E],
           (Z.eqb_spec (Z.of_N (N_of_ascii y) - Z.of_N (N_of_ascii x)) 0) as [E'|E'];
    try lia.
  apply IH.
Qed.

Lemma codeunit_compare_trans a b c :
  (codeunit_compare a b ≤ 0 → codeunit_compare b c ≤ 0 → codeunit_compare a c ≤ 0)%Z.
Proof.
  revert b c. induction a as [|x a IH]; intros [|y b] [|z c]; cbn; try lia.
  destruct (Z.eqb_spec (Z.of_N (N_of_ascii x) - Z.of_N (N_of_ascii y)) 0) as [E1|E1],
           (Z.eqb_spec (Z.of_N (N_of_ascii y) - Z.of_N (N_of_ascii z)) 0) as [E2|E2],
           (Z.eqb_spec (Z.of_N (N_of_ascii x) - Z.of_N (N_of_ascii z)) 0) as [E3|E3];
    try lia.
  apply IH.
Qed.

Lemma codeunit_consistent : Consistent codeunit_compare.
Proof.
  split.
  - apply codeunit_compare_refl.
  - apply codeunit_compare_swap.
  - apply codeunit_compare_trans.
Qed.

(** C1 (as the script behaves): on the document of scenario 1 the flat sort
    writes the header and the two links in order, with no line feed at the
    end (the empty last line of the input is no link line and is dropped),
    and the statistics count 2 links, 2 unique links and 0 duplicates. *)
Theorem scenario1_flat localeCompare URL_hostname :
  Consistent localeCompare →
  (localeCompare "https://a.com/y" "https://b.com/x" < 0)%Z →
  newContent localeCompare URL_hostname false scenario1
  = Some ("# Links" +:+ LF +:+ "* https://a.com/y" +:+ LF +:+ "* https://b.com/x")
  ∧ totalLinks (collectStatistics URL_hostname scenario1) = 2
  ∧ uniqueLinks (collectStatistics URL_hostname scenario1) = 2
  ∧ duplicates (collectStatistics URL_hostname scenario1) = 0%Z.
Proof.
  intros Hc Hlt. split.
  - apply (consistent_swap _ Hc), Z.ltb_lt in Hlt.
    vm_compute in Hlt |- *. by rewrite Hlt.
  - destruct (collectStatistics_counts URL_hostname scenario1) as (-> & -> & -> & _).
    split_and!; reflexivity.
Qed.

Lemma scenario1_flat_witness :
  Consistent codeunit_compare
  ∧ (codeunit_compare "https://a.com/y" "https://b.com/x" < 0)%Z
  ∧ newContent codeunit_compare plain_hostname false scenario1
    = Some ("# Links" +:+ LF +:+ "* https://a.com/y" +:+ LF +:+ "* https://b.com/x")
  ∧ totalLinks (collectStatistics plain_hostname scenario1) = 2
  ∧ uniqueLinks (collectStatistics plain_hostname scenario1) = 2
  ∧ duplicates (collectStatistics plain_hostname scenario1) = 0%Z.
Proof.
  split; [exact codeunit_consistent|]. split; [reflexivity|].
  apply (scenario1_flat codeunit_compare plain_hostname codeunit_consistent).
  reflexivity.
Defined.

(** C1 as stated fails: the text written for scenario 1 does not end with a
    line feed, so it is not the text the scenario expects. *)
Lemma scenario1_no_trailing_newline :
  newContent codeunit_compare plain_hostname false scenario1
  = Some ("# Links" +:+ LF +:+ "* https://a.com/y" +:+ LF +:+ "* https://b.com/x")
  ∧ "# Links" +:+ LF +:+ "* https://a.com/y" +:+ LF +:+ "* https://b.com/x"
    ≠ "# Links" +:+ LF +:+ "* https://a.com/y" +:+ LF +:+ "* https://b.com/x" +:+ LF.
Proof. split; [reflexivity|discriminate]. Qed.

(** ** The canonical line *)

Lemma trim_nonblank c s :
  is_white_space c = false → trim (String c s) ≠ "".
Proof. intros H. by rewrite trim_cons. Qed.

Lemma trim_skip c s : trim s ≠ "" → trim (String c s) ≠ "".
Proof.
  intros H. destruct (is_white_space c) eqn:W.
  - unfold trim in *. cbn. by rewrite W.
  - by apply trim_nonblank.
Qed.

(** A text that contains a word starting with a visible character does not
    trim to the empty string. *)
Lemma includes_trim s c p :
  is_white_space c = false → includes s (String c p) = true → trim s ≠ "".
Proof.
  intros W. induction s as [|a s IH]; cbn [includes].
  - by rewrite orb_false_r.
  - intros [H|H]%orb_true_iff.
    + apply startsWith_true in H as [r H]. rewrite app_cons in H.
      injection H as -> _. by apply trim_nonblank.
    + by apply trim_skip, IH.
Qed.

Lemma includes_after_bullet s c p :
  Ascii.eqb c "*" = false → Ascii.eqb c " " = false →
  includes ("* " +:+ s) (String c p) = includes s (String c p).
Proof.
  intros H1 H2. rewrite !app_cons, app_empty. cbn [includes].
  unfold startsWith at 1 2. cbn [after_prefix].
  by rewrite H1, H2.
Qed.

(** C6 (as the script behaves): for a line whose trimmed form starts with the
    bullet and contains [http://] or [https://], the URL is the trimmed rest
    after the first bullet, it is not empty and starts with a visible
    character; the stored line is ["* " + url] only if the line itself, not
    trimmed, does not start with the bullet, and is the line as written
    otherwise. *)
Theorem canonical_line rawLine :
  startsWith (trim rawLine) "* " = true →
  includes (trim rawLine) "http://" || includes (trim rawLine) "https://" = true →
  let url := trim (replace (trim rawLine) "* " "") in
  classify rawLine
  = (url, if startsWith rawLine "* " then rawLine else "* " +:+ url)
  ∧ line_url rawLine = url
  ∧ (∃ c r, url = String c r ∧ is_white_space c = false).
Proof.
  intros Hb Hi url. subst url. split_and!.
  - unfold classify. rewrite Hb, Hi. cbn [andb].
    by destruct (startsWith rawLine "* ").
  - unfold line_url. by rewrite Hb, Hi.
  - apply startsWith_true in Hb as [r Hr]. rewrite Hr in Hi |- *.
    rewrite replace_bullet.
    rewrite !includes_after_bullet in Hi by done.
    assert (trim r ≠ "") as Hne.
    { apply orb_true_iff in Hi as [Hi|Hi]; by eapply includes_trim; [|exact Hi]. }
    destruct (trim_shape r) as [?|(c & r' & W & _ & ->)]; [done|]. eauto.
Qed.

Lemma canonical_line_witness :
  startsWith (trim "   * https://a.com  ") "* " = true
  ∧ includes (trim "   * https://a.com  ") "http://"
    || includes (trim "   * https://a.com  ") "https://" = true
  ∧ classify "   * https://a.com  " = ("https://a.com", "* https://a.com")
  ∧ line_url "   * https://a.com  " = "https://a.com"
  ∧ (∃ c r, "https://a.com" = String c r ∧ is_white_space c = false).
Proof.
  split; [reflexivity|]. split; [reflexivity|].
  apply (canonical_line "   * https://a.com  "); reflexivity.
Defined.

(** C6 as stated fails: a line that starts with the bullet and has three
    spaces after it is stored as written, not with a single space. *)
Lemma canonical_line_keeps_spacing :
  startsWith (trim "*   https://a.com") "* " = true
  ∧ includes (trim "*   https://a.com") "https://" = true
  ∧ classify "*   https://a.com" = ("https://a.com", "*   https://a.com")
  ∧ "*   https://a.com" ≠ "* " +:+ "https://a.com".
Proof. split_and!; try reflexivity. discriminate. Qed.

(** ** Objects *)

Section object_facts.

Context {V : Type}.

Implicit Types (o : JsObject.object V) (k : string) (v : V).

Lemma own_is_Some o k : is_Some (JsObject.own o k) ↔ k ∈ o.*1.
Proof.
  induction o as [|[k' v'] o IH]; cbn.
  - split; [by intros []|by intros ?%elem_of_nil].
  - destruct (String.eqb_spec k' k) as [->|Hne].
    + split; [intros _; by left|by eexists].
    + rewrite IH. split; [by right|].
      by intros [?|?]%elem_of_cons.
Qed.

Lemma own_None o k : JsObject.own o k = None ↔ k ∉ o.*1.
Proof. by rewrite <- own_is_Some, eq_None_not_Some. Qed.

Lemma own_set o k v k' :
  JsObject.own (JsObject.set o k v) k'
  = if decide (k = k') then Some v else JsObject.own o k'.
Proof.
  induction o as [|[k0 v0] o IH]; cbn.
  - destruct (String.eqb_spec k k'); by case_decide.
  - destruct (String.eqb_spec k0 k) as [->|Hne]; cbn.
    + destruct (String.eqb_spec k k'); by case_decide.
    + rewrite IH. destruct (String.eqb_spec k0 k') as [->|]; [|done].
      by rewrite decide_False.
Qed.

Lemma set_keys o k v :
  (JsObject.set o k v).*1 = if decide (k ∈ o.*1) then o.*1 else o.*1 ++ [k].
Proof.
  induction o as [|[k0 v0] o IH]; cbn.
  - by rewrite decide_False by apply not_elem_of_nil.
  - destruct (String.eqb_spec k0 k) as [->|Hne]; cbn.
    + by rewrite decide_True by left.
    + rewrite IH. case_decide as Hk.
      * by rewrite decide_True by (by right).
      * rewrite decide_False; [done|]. by intros [?|?]%elem_of_cons.
Qed.

Lemma entries_perm o : JsObject.entries o ≡ₚ o.
Proof.
  unfold JsObject.entries. rewrite sort_perm. apply filter_app_complement.
Qed.

Lemma keys_perm o : JsObject.keys o ≡ₚ o.*1.
Proof. unfold JsObject.keys. by rewrite entries_perm. Qed.

End object_facts.

Lemma elem_of_concat {A} (x : A) (ls : list (list A)) :
  x ∈ concat ls ↔ ∃ l, l ∈ ls ∧ x ∈ l.
Proof.
  induction ls as [|l ls IH]; cbn.
  - split; [by intros ?%elem_of_nil|by intros (? & ?%elem_of_nil & _)].
  - rewrite elem_of_app, IH. split.
    + intros [?|(l' & ? & ?)]; [exists l; split; [by left|done]|].
      exists l'. split; [by right|done].
    + intros (l' & [->|?]%elem_of_cons & ?); [by left|right; eauto].
Qed.


(** ** Grouping *)

Section grouping_facts.

Context (URL_hostname : string → option string) (m : gmap string string).

Implicit Types (us : list string) (G : JsObject.object (list string)).

Lemma members_snoc k us u :
  members URL_hostname k (us ++ [u])
  = members URL_hostname k us
    ++ (if decide (group_key URL_hostname u = k) then [u] else []).
Proof.
  unfold members. by rewrite filter_app.
Qed.

Lemma add_to_group_ok us G u G' :
  groups_ok URL_hostname m us G →
  add_to_group G (group_key URL_hostname u) (line_of m u) = Some G' →
  groups_ok URL_hostname m (us ++ [u]) G'.
Proof.
  intros (Hnd & Hinh & Hown). unfold add_to_group.
  destruct (JsObject.own G (group_key URL_hostname u)) as [group|] eqn:E.
  - intros [= <-].
    assert (group_key URL_hostname u ∈ G.*1) as Hin
      by (apply own_is_Some; by rewrite E).
    split_and!.
    + rewrite set_keys. by rewrite decide_True.
    + intros k. rewrite set_keys, decide_True by done. apply Hinh.
    + intros k. rewrite own_set, members_snoc.
      pose proof (Hown (group_key URL_hostname u)) as Hk. rewrite E in Hk.
      destruct (decide (group_key URL_hostname u = k)) as [<-|Hku].
      * case_decide as Hm; [done|]. injection Hk as ->.
        rewrite decide_False by (by intros [? _]%app_eq_nil).
        by rewrite fmap_app.
      * rewrite app_nil_r. apply Hown.
  - destruct (JsObject.inherited (group_key URL_hostname u)) eqn:Hi; [done|].
    intros [= <-].
    assert (group_key URL_hostname u ∉ G.*1) as Hin by (by apply own_None).
    split_and!.
    + rewrite set_keys, decide_False by done.
      apply NoDup_app. split_and!; [done| |apply NoDup_singleton].
      by intros k Hk ->%list_elem_of_singleton.
    + intros k. rewrite set_keys, decide_False by done.
      intros [?| ->%list_elem_of_singleton]%elem_of_app; [by apply Hinh|done].
    + intros k. rewrite own_set, members_snoc.
      pose proof (Hown (group_key URL_hostname u)) as Hk. rewrite E in Hk.
      destruct (decide (group_key URL_hostname u = k)) as [<-|Hku].
      * case_decide as Hm; [|done]. by rewrite Hm.
      * rewrite app_nil_r. apply Hown.
Qed.

Lemma group_links_ok us G :
  group_links URL_hostname us m = Some G → groups_ok URL_hostname m us G.
Proof.
  unfold group_links. revert G. induction us as [|u us IH] using rev_ind; intros G.
  - intros [= <-]. split_and!; [constructor|by intros k ?%elem_of_nil|done].
  - rewrite foldl_snoc.
    match goal with
    | |- context [foldl ?f ?a us] => destruct (foldl f a us) as [G0|]
    end; [|done].
    cbn. intros H. eapply add_to_group_ok; [by apply IH|done].
Qed.

(** Grouping goes through exactly when no key is a name that objects
    inherit. *)
Lemma group_links_is_Some us :
  is_Some (group_links URL_hostname us m)
  ↔ ∀ u, u ∈ us → JsObject.inherited (group_key URL_hostname u) = false.
Proof.
  unfold group_links. induction us as [|u us IH] using rev_ind.
  - split; [by intros _ u ?%elem_of_nil|by eexists].
  - rewrite foldl_snoc.
    match goal with
    | |- context [foldl ?f ?a us] => destruct (foldl f a us) as [G0|] eqn:E
    end; cbn.
    + assert (groups_ok URL_hostname m us G0) as (Hnd & Hinh & Hown)
        by (by apply group_links_ok).
      destruct IH as [IH _]. specialize (IH (ltac:(by eexists))).
      unfold add_to_group.
      destruct (JsObject.own G0 (group_key URL_hostname u)) as [group|] eqn:Eo.
      * split; [|by eexists]. intros _ u' [?| ->%list_elem_of_singleton]%elem_of_app.
        -- by apply IH.
        -- apply Hinh, own_is_Some. by rewrite Eo.
      * destruct (JsObject.inherited (group_key URL_hostname u)) eqn:Hi.
        -- split; [by intros []|]. intros H. rewrite H in Hi; [done|].
           apply elem_of_app. right. by apply list_elem_of_singleton.
        -- split; [|by eexists].
           intros _ u' [?| ->%list_elem_of_singleton]%elem_of_app; [by apply IH|done].
    + split; [by intros []|]. intros H.
      destruct IH as [_ IH]. destruct IH as [? [=]].
      intros u' Hu'. apply H, elem_of_app. by left.
Qed.

Lemma groups_ok_key us G k :
  groups_ok URL_hostname m us G →
  k ∈ G.*1 → JsObject.own G k = Some (line_of m <$> members URL_hostname k us).
Proof.
  intros (_ & _ & Hown) Hk%own_is_Some. rewrite Hown in Hk |- *.
  case_decide; [by destruct Hk|done].
Qed.

End grouping_facts.

(** ** The grouped order *)


Section output_lines.

Context (localeCompare : string → string → Z).
Context (URL_hostname : string → option string).

(** The grouped output, chunk by chunk. *)
Lemma sortedLinks_grouped_eq body out :
  sortedLinks localeCompare URL_hostname true (extract body) = Some out →
  ∃ G, groups_ok URL_hostname (urlToLineMap (extract body))
                 (rawUrls (extract body)) G
       ∧ out = concat
                 (map (λ d, sort (compare_links localeCompare)
                              (line_of (urlToLineMap (extract body))
                                 <$> members URL_hostname d (rawUrls (extract body))))
                      (sort (compare_domains localeCompare) (JsObject.keys G))).
Proof.
  unfold sortedLinks.
  destruct (group_links URL_hostname (rawUrls (extract body))
              (urlToLineMap (extract body))) as [G|] eqn:EG; [|done].
  cbn. intros [= <-].
  pose proof (group_links_ok _ _ _ _ EG) as Hok.
  exists G. split; [done|]. f_equal.
  apply map_ext_in. intros d Hd%list_elem_of_In.
  rewrite elem_of_sort, keys_perm in Hd.
  by rewrite (groups_ok_key _ _ _ _ _ Hok Hd).
Qed.

Lemma chunk_elem body d A :
  A ∈ sort (compare_links localeCompare)
        (line_of (urlToLineMap (extract body))
           <$> members URL_hostname d (rawUrls (extract body)))
  ↔ ∃ u, u ∈ rawUrls (extract body) ∧ group_key URL_hostname u = d
         ∧ A = line_of (urlToLineMap (extract body)) u.
Proof.
  rewrite elem_of_sort, list_elem_of_fmap. unfold members. split.
  - intros (u & -> & [Hk Hu]%list_elem_of_filter). by exists u.
  - intros (u & Hu & Hk & ->). exists u. split; [done|].
    by apply list_elem_of_filter.
Qed.

(** In both modes the output lists the line of every URL of the set, and
    nothing else. *)
Lemma sortedLinks_elem groupByDomain body out :
  sortedLinks localeCompare URL_hostname groupByDomain (extract body) = Some out →
  ∀ A, A ∈ out ↔ ∃ u, u ∈ rawUrls (extract body)
                      ∧ A = line_of (urlToLineMap (extract body)) u.
Proof.
  destruct groupByDomain.
  - intros (G & Hok & ->)%sortedLinks_grouped_eq A.
    rewrite elem_of_concat. split.
    + intros (l & (d & -> & Hd)%list_elem_of_fmap & HA).
      apply chunk_elem in HA as (u & ? & _ & ?). eauto.
    + intros (u & Hu & ->).
      eexists. split.
      * apply list_elem_of_fmap. exists (group_key URL_hostname u).
        split; [reflexivity|].
        rewrite elem_of_sort, keys_perm. apply own_is_Some.
        destruct Hok as (_ & _ & Hown). rewrite Hown.
        rewrite decide_False; [by eexists|].
        intros Hnil.
        assert (u ∈ members URL_hostname (group_key URL_hostname u)
                      (rawUrls (extract body))) as Hm
          by (by apply list_elem_of_filter).
        rewrite Hnil in Hm. by apply elem_of_nil in Hm.
      * apply chunk_elem. eauto.
  - cbn. intros [= <-] A. rewrite elem_of_sort, list_elem_of_fmap.
    split; intros (u & ? & ?); by exists u.
Qed.

(** The lines of the output have no line feed inside. *)
Lemma sortedLinks_no_LF groupByDomain body out :
  Forall (λ r, no_LF r = true) body →
  sortedLinks localeCompare URL_hostname groupByDomain (extract body) = Some out →
  Forall (λ l, no_LF l = true) out.
Proof.
  intros Hb Hout. apply Forall_forall. intros A HA.
  apply (sortedLinks_elem _ _ _ Hout) in HA as (u & Hu & ->).
  by apply extract_lookup.
Qed.

Hypothesis consistent : Consistent localeCompare.

Lemma compare_links_consistent : Consistent (compare_links localeCompare).
Proof.
  apply (Consistent_on localeCompare (λ a, toLowerCase (replace a "* " ""))).
  exact consistent.
Qed.

Lemma compare_domains_consistent : Consistent (compare_domains localeCompare).
Proof. apply (Consistent_on localeCompare toLowerCase). exact consistent. Qed.


End output_lines.

(** ** The group key *)

Section authority.

Implicit Types (s r a pre rest u : string).










End authority.




Example scenario5_grouped :
  newContent codeunit_compare plain_hostname true scenario5
  = Some ("* https://www.a.com/2" +:+ LF +:+ "* https://b.com/3" +:+ LF
          +:+ "* https://sub.a.com/1")
  ∧ line_group_key plain_hostname "* https://www.a.com/2" = "a.com"
  ∧ line_group_key plain_hostname "* https://b.com/3" = "b.com"
  ∧ line_group_key plain_hostname "* https://sub.a.com/1" = "sub.a.com".
Proof. split_and!; reflexivity. Qed.

(** A host that is a name every object inherits stops the grouped run with
    a TypeError before anything is written. *)
Example grouped_inherited_key :
  group_key plain_hostname "https://constructor/faq" = "constructor"
  ∧ newContent codeunit_compare plain_hostname true "* https://constructor/faq" = None.
Proof. split; reflexivity. Qed.

(** ** The header *)

Lemma first_header_end_spec k lines i :
  first_header_end k lines = Some i →
  ∃ j line, i = k + j ∧ lines !! j = Some line ∧ is_header_end line = true
            ∧ Forall (λ l, is_header_end l = false) (take j lines).
Proof.
  revert k. induction lines as [|l lines IH]; intros k; cbn; [done|].
  destruct (is_header_end l) eqn:E.
  - intros [= <-]. exists 0, l. split_and!; [lia|done|done|constructor].
  - intros (j & line & -> & Hj & Hl & Hbefore)%IH.
    exists (S j), line. split_and!; [lia|done|done|].
    cbn. by constructor.
Qed.

(** C2 (as the script behaves): when some line, trimmed, starts with
    [* http] or with [http], the header is the lines strictly before the
    first such line; the flat run always writes a text, and in whatever a
    run writes the header lines come first, unchanged and in their order. *)
Theorem header_preserved localeCompare URL_hostname groupByDomain content i :
  first_header_end 0 (split_lines content) = Some i →
  headerContent content = take i (split_lines content)
  ∧ length (headerContent content) = i
  ∧ Forall (λ line, is_header_end line = false) (headerContent content)
  ∧ (∃ line, split_lines content !! i = Some line ∧ is_header_end line = true)
  ∧ is_Some (newContent localeCompare URL_hostname false content)
  ∧ ∀ text,
      newContent localeCompare URL_hostname groupByDomain content = Some text →
      take i (split_lines text) = headerContent content.
Proof.
  intros Hi.
  destruct (first_header_end_spec _ _ _ Hi) as (j & line & -> & Hj & Hl & Hbefore).
  cbn [Nat.add].
  assert (headerContent content = take j (split_lines content)) as Hh.
  { unfold headerContent, headerEndIndex, slice0. by rewrite Hi. }
  assert (length (headerContent content) = j) as Hlen.
  { rewrite Hh, length_take. apply lookup_lt_Some in Hj. lia. }
  split_and!; [done|done|by rewrite Hh|by exists line|by eexists|].
  intros text. unfold newContent.
  set (body := drop _ _).
  destruct (sortedLinks _ _ _ (extract body)) as [out|] eqn:Hout; [|done].
  cbn. intros [= <-].
  destruct (decide (headerContent content ++ out = [])) as [Hnil|Hne].
  - apply app_eq_nil in Hnil as [Hnil _]. rewrite Hnil in Hlen |- *.
    cbn in Hlen. subst j. done.
  - rewrite split_lines_join; [by rewrite take_app_length'|done|].
    apply Forall_app. split.
    + rewrite Hh. apply Forall_take, split_lines_no_LF.
    + eapply sortedLinks_no_LF; [|exact Hout].
      apply Forall_drop, split_lines_no_LF.
Qed.

Lemma header_preserved_witness :
  first_header_end 0 (split_lines scenario1) = Some 1
  ∧ headerContent scenario1 = ["# Links"]
  ∧ is_Some (newContent codeunit_compare plain_hostname false scenario1).
Proof.
  split; [reflexivity|].
  destruct (header_preserved codeunit_compare plain_hostname false scenario1 1)
    as (H1 & _ & _ & _ & H2 & _); [reflexivity|].
  split; [exact H1|exact H2].
Defined.

(** C2 as stated fails: a line of prose that starts with [https] is no link
    line, so the specification's header holds it, but it ends the script's
    header and is lost from the text written. *)
Lemma header_ends_at_prose :
  spec_header prose_before_link = ["# Notes"; "https is a protocol"]
  ∧ headerContent prose_before_link = ["# Notes"]
  ∧ newContent codeunit_compare plain_hostname false prose_before_link
    = Some ("# Notes" +:+ LF +:+ "* https://a.com").
Proof. split_and!; reflexivity. Qed.

(** C3, evaluated: a document without links has no unique link and an empty
    list of sorted links, but its header is empty as well, not the whole
    document, and the text written is empty in both modes. *)
Theorem no_link_document_is_emptied :
  ∀ localeCompare URL_hostname groupByDomain,
    spec_header notes_only = ["# Notes"; "nothing to sort here"]
    ∧ uniqueLinks (collectStatistics URL_hostname notes_only) = 0
    ∧ sortedLinks localeCompare URL_hostname groupByDomain (extracted notes_only)
      = Some []
    ∧ headerEndIndex (split_lines notes_only) = 0
    ∧ headerContent notes_only = []
    ∧ newContent localeCompare URL_hostname groupByDomain notes_only = Some "".
Proof. intros lc uh []; split_and!; reflexivity. Qed.

(** C9, evaluated: the flat run on a document whose header ends at a line of
    prose writes the header and the link; run again on that text, it finds
    no line that ends a header, takes the header to be empty and writes the
    link alone. *)
Theorem flat_sort_twice_differs :
  ∀ localeCompare URL_hostname,
    newContent localeCompare URL_hostname false prose_before_see_link
    = Some ("# Notes" +:+ LF +:+ "* see https://a.com")
    ∧ newContent localeCompare URL_hostname false
        ("# Notes" +:+ LF +:+ "* see https://a.com")
      = Some "* see https://a.com".
Proof. intros lc uh. split; reflexivity. Qed.

(** ** The run with its effects *)

(** What [sortLinks] leaves in the file: the new text, or the old one when
    the run throws; and what it returns. *)
Lemma sortLinks_file localeCompare URL_hostname now readmePath options w content :
  files w !! readmePath = Some content →
  let r := sortLinks localeCompare URL_hostname now readmePath options w in
  match newContent localeCompare URL_hostname (groupByDomain options) content with
  | Some text =>
      files r.1 !! readmePath = Some text
      ∧ r.2 = Return (collectStatistics URL_hostname content)
  | None =>
      files r.1 !! readmePath = Some content ∧ r.2 = Throw "TypeError"
  end.
Proof.
  intros Hfile. unfold sortLinks, newContent. rewrite Hfile.
  destruct (sortedLinks _ _ _ _) as [sorted|]; cbn.
  - split; [|done].
    destruct (showStats options); cbn; by rewrite lookup_insert_eq.
  - split; [|done].
    destruct (createBackup options); cbn; [|done].
    rewrite lookup_insert. by case_decide.
Qed.

(** ** Documents without links *)

Lemma is_link_line_false line :
  is_link_line line = false ↔ (classify line).1 = "".
Proof.
  unfold is_link_line. rewrite classify_url, negb_false_iff.
  apply String.eqb_eq.
Qed.

Lemma extract_no_links st body :
  Forall (λ l, is_link_line l = false) body → foldl extract_line st body = st.
Proof.
  revert st. induction body as [|l body IH]; intros st Hb; [done|].
  inversion_clear Hb as [|? ? Hl Hrest]. cbn. rewrite IH by done.
  apply is_link_line_false in Hl. unfold extract_line.
  destruct (classify l) as [u o]. cbn in Hl. by subst u.
Qed.

Lemma collect_no_links acc lines :
  Forall (λ l, is_link_line l = false) lines → foldl collect_line acc lines = acc.
Proof.
  revert acc. induction lines as [|l lines IH]; intros acc Hb; [done|].
  inversion_clear Hb as [|? ? Hl Hrest]. cbn. rewrite IH by done.
  unfold is_link_line in Hl. apply negb_false_iff in Hl.
  unfold collect_line. by rewrite Hl.
Qed.

(** X8: a document without link lines: nothing is counted and nothing is
    sorted; the text written is the header alone, and it is empty when no
    line ends the header. *)
Lemma no_links_run localeCompare URL_hostname groupByDomain content :
  Forall (λ l, is_link_line l = false) (split_lines content) →
  uniqueLinks (collectStatistics URL_hostname content) = 0
  ∧ newContent localeCompare URL_hostname groupByDomain content
    = Some (join LF (headerContent content))
  ∧ (first_header_end 0 (split_lines content) = None →
     newContent localeCompare URL_hostname groupByDomain content = Some "").
Proof.
  intros Hno.
  assert (newContent localeCompare URL_hostname groupByDomain content
          = Some (join LF (headerContent content))) as Hnew.
  { unfold newContent, extract.
    rewrite extract_no_links by (by apply Forall_drop).
    destruct groupByDomain; cbn; by rewrite app_nil_r. }
  split_and!; [|done|].
  - destruct (collectStatistics_counts URL_hostname content) as (_ & -> & _).
    unfold counted, collect_links. by rewrite collect_no_links.
  - intros Hnone. rewrite Hnew. unfold headerContent, headerEndIndex.
    by rewrite Hnone.
Qed.

(** ** Running the flat sort again *)

Section trimmed_search.

Implicit Types (s p : string).

Lemma after_prefix_trimEnd p s :
  visible p = true →
  is_Some (after_prefix p (trimEnd s)) ↔ is_Some (after_prefix p s).
Proof.
  revert s. induction p as [|a p IH]; intros s Hp; [done|].
  unfold visible in Hp. cbn in Hp. apply andb_true_iff in Hp as [Ha Hp].
  apply negb_true_iff in Ha.
  destruct s as [|c s]; [done|].
  specialize (IH s Hp). cbn [trimEnd].
  destruct (trimEnd s) as [|x r] eqn:E.
  - destruct (is_white_space c) eqn:W; cbn [after_prefix].
    + destruct (Ascii.eqb_spec a c) as [->|]; [congruence|].
      split; by intros [? [=]].
    + by destruct (Ascii.eqb a c).
  - cbn [after_prefix]. by destruct (Ascii.eqb a c).
Qed.

Lemma startsWith_trimEnd s p :
  visible p = true → startsWith (trimEnd s) p = startsWith s p.
Proof.
  intros Hp. pose proof (after_prefix_trimEnd p s Hp) as H. unfold startsWith.
  destruct (after_prefix p (trimEnd s)), (after_prefix p s); try done.
  - destruct H as [H _]. by destruct H as [? [=]].
  - destruct H as [_ H]. by destruct H as [? [=]].
Qed.

Lemma trimEnd_shape c s :
  trimEnd (String c s) = "" ∧ trimEnd s = ""
  ∨ trimEnd (String c s) = String c (trimEnd s).
Proof.
  cbn. destruct (trimEnd s); [|by right].
  destruct (is_white_space c); [by left|by right].
Qed.

Lemma includes_trimEnd s p :
  visible p = true → p ≠ "" → includes (trimEnd s) p = includes s p.
Proof.
  intros Hp Hne. induction s as [|c s IH]; [done|].
  pose proof (startsWith_trimEnd (String c s) p Hp) as Hs.
  cbn [includes]. rewrite <- IH, <- Hs.
  destruct (trimEnd_shape c s) as [[-> ->]| ->]; [|done].
  cbn. destruct p; [done|]. done.
Qed.

Lemma includes_trimStart s a p :
  is_white_space a = false →
  includes (trimStart s) (String a p) = includes s (String a p).
Proof.
  intros Ha. induction s as [|c s IH]; [done|].
  cbn [trimStart includes]. destruct (is_white_space c) eqn:W; [|done].
  rewrite IH. unfold startsWith. cbn [after_prefix].
  destruct (Ascii.eqb_spec a c) as [->|]; [congruence|done].
Qed.

Lemma includes_trim_eq s a p :
  visible (String a p) = true →
  includes (trim s) (String a p) = includes s (String a p).
Proof.
  intros Hp. unfold trim. rewrite includes_trimEnd by done.
  apply includes_trimStart. unfold visible in Hp. cbn in Hp.
  apply andb_true_iff in Hp as [Ha _]. by apply negb_true_iff in Ha.
Qed.

Lemma startsWith_includes s p : startsWith s p = true → includes s p = true.
Proof. intros H. destruct s; cbn; by rewrite H. Qed.

End trimmed_search.

(** A line the link loop has stored is read by it again as the same link. *)
Lemma classify_stored rawLine u l :
  classify rawLine = (u, l) → u ≠ "" → classify l = (u, l).
Proof.
  unfold classify at 1.
  destruct (startsWith (trim rawLine) "* "
            && (includes (trim rawLine) "http://"
                || includes (trim rawLine) "https://")) eqn:Hcond.
  - apply andb_true_iff in Hcond as [Hb Hi].
    destruct (startsWith rawLine "* ") eqn:E; cbn [negb];
      intros [= Hu' Hl'] Hu; subst u l.
    + unfold classify. by rewrite Hb, Hi, E.
    + apply startsWith_true in Hb as [r Hr]. rewrite Hr in Hi, Hu |- *.
      rewrite replace_bullet in Hu |- *.
      rewrite !includes_after_bullet in Hi by done.
      unfold classify. rewrite trim_bullet by done.
      rewrite startsWith_bullet, !includes_after_bullet by done.
      rewrite !includes_trim_eq by done. rewrite Hi. cbn [andb negb].
      by rewrite replace_bullet, trim_idem.
  - destruct (startsWith (trim rawLine) "http://"
              || startsWith (trim rawLine) "https://") eqn:Hs;
      intros [= Hu' Hl'] Hu; subst u l; [|done].
    unfold classify. rewrite trim_bullet by done.
    rewrite startsWith_bullet, !includes_after_bullet by done.
    assert (includes (trim rawLine) "http://"
            || includes (trim rawLine) "https://" = true) as ->.
    { apply orb_true_iff in Hs as [Hs|Hs];
        apply startsWith_includes in Hs; rewrite Hs; [done|apply orb_true_r]. }
    cbn [andb negb]. by rewrite replace_bullet, trim_idem.
Qed.

Lemma extract_stored_lines body u :
  u ∈ rawUrls (extract body) →
  stored_line (line_of (urlToLineMap (extract body)) u).
Proof.
  intros Hu.
  destruct (extract_ok (λ _, True) body) as [_ H]; [by apply Forall_true|].
  destruct (H u Hu) as (Hne & r & l & _ & Hc & Hl).
  unfold line_of. rewrite Hl. cbn.
  destruct (classify_link r u l Hc Hne) as (_ & Hurl & _).
  unfold stored_line. rewrite Hurl. split; [|done].
  by eapply classify_stored.
Qed.

Lemma extract_line_link st rawLine u l :
  classify rawLine = (u, l) → u ≠ "" →
  extract_line st rawLine
  = {| links := links st ++ [l];
       rawUrls := Set_add (rawUrls st) u;
       urlToLineMap := <[u := l]> (urlToLineMap st) |}.
Proof.
  intros Hc Hne%String.eqb_neq. unfold extract_line. by rewrite Hc, Hne.
Qed.

(** The link loop over stored lines of distinct URLs gives these URLs, in
    order, each with its line. *)
Lemma extract_stored ls :
  Forall stored_line ls → NoDup (url_of_line <$> ls) →
  rawUrls (extract ls) = url_of_line <$> ls
  ∧ ∀ l, l ∈ ls → urlToLineMap (extract ls) !! url_of_line l = Some l.
Proof.
  unfold extract. induction ls as [|l ls IH] using rev_ind; intros Hst Hnd.
  - split; [done|]. by intros l ?%elem_of_nil.
  - apply Forall_app in Hst as [Hst Hl]. inversion_clear Hl as [|? ? [Hc Hne] _].
    rewrite fmap_app in Hnd. apply NoDup_app in Hnd as (Hnd & Hfresh & _).
    destruct (IH Hst Hnd) as [Hurls Hmap].
    rewrite foldl_snoc, (extract_line_link _ _ _ _ Hc Hne). cbn. split.
    + rewrite Hurls, fmap_app. unfold Set_add.
      rewrite bool_decide_eq_false_2; [done|].
      intros Hin. apply (Hfresh _ Hin). by left.
    + intros l' [Hl'| ->%list_elem_of_singleton]%elem_of_app.
      * rewrite lookup_insert_ne; [by apply Hmap|].
        intros Heq. apply (Hfresh (url_of_line l')).
        -- apply list_elem_of_fmap. by exists l'.
        -- rewrite <- Heq. by left.
      * by rewrite lookup_insert_eq.
Qed.

Lemma extract_stored_lines_of ls :
  Forall stored_line ls → NoDup (url_of_line <$> ls) →
  line_of (urlToLineMap (extract ls)) <$> rawUrls (extract ls) = ls.
Proof.
  intros Hst Hnd. destruct (extract_stored ls Hst Hnd) as [-> Hmap].
  rewrite <- list_fmap_compose.
  transitivity (id <$> ls); [|apply list_fmap_id].
  apply list_fmap_ext. intros i l Hl%list_elem_of_lookup_2. cbn.
  unfold line_of. by rewrite (Hmap l Hl).
Qed.

Lemma first_header_end_app k header rest :
  Forall (λ l, is_header_end l = false) header →
  first_header_end k (header ++ rest) = first_header_end (k + length header) rest.
Proof.
  revert k. induction header as [|l header IH]; intros k Hh; cbn.
  - by rewrite Nat.add_0_r.
  - inversion_clear Hh as [|? ? Hl Hrest]. rewrite Hl, IH by done.
    f_equal. lia.
Qed.

Lemma headerContent_no_end content :
  Forall (λ l, is_header_end l = false) (headerContent content).
Proof.
  unfold headerContent, headerEndIndex, slice0.
  destruct (first_header_end 0 (split_lines content)) as [i|] eqn:E; [|constructor].
  by destruct (first_header_end_spec _ _ _ E) as (j & line & -> & _ & _ & ?).
Qed.

Section flat_again.

Context (localeCompare : string → string → Z).
Context (URL_hostname : string → option string).

Lemma newContent_flat content :
  newContent localeCompare URL_hostname false content
  = Some (join LF (headerContent content ++ flat_links localeCompare content)).
Proof. done. Qed.

Lemma flat_links_stored content :
  Forall stored_line (flat_links localeCompare content).
Proof.
  apply Forall_forall. intros l. unfold flat_links.
  rewrite elem_of_sort, list_elem_of_fmap. intros (u & -> & Hu).
  by apply extract_stored_lines.
Qed.

Lemma flat_links_urls content :
  url_of_line <$> flat_links localeCompare content
  ≡ₚ rawUrls (extracted content).
Proof.
  unfold flat_links. rewrite sort_perm, <- list_fmap_compose.
  assert (url_of_line ∘ line_of (urlToLineMap (extracted content))
            <$> rawUrls (extracted content)
          = id <$> rawUrls (extracted content)) as ->; [|by rewrite list_fmap_id].
  unfold extracted.
  apply list_fmap_ext. intros i u Hu%list_elem_of_lookup_2. cbn.
  by destruct (extract_lookup _ u Hu) as (_ & _ & -> & _).
Qed.

Lemma flat_links_no_LF content :
  Forall (λ l, no_LF l = true) (flat_links localeCompare content).
Proof.
  apply (sortedLinks_no_LF localeCompare URL_hostname false
           (drop (headerEndIndex (split_lines content)) (split_lines content)));
    [|done].
  apply Forall_drop, split_lines_no_LF.
Qed.

(** X7: the flat run on its own output writes the same text again, provided
    the first header is empty or the output has a line that ends a header. *)
Lemma flat_sort_idempotent content text :
  Consistent localeCompare →
  newContent localeCompare URL_hostname false content = Some text →
  headerContent content = [] ∨ is_Some (first_header_end 0 (split_lines text)) →
  newContent localeCompare URL_hostname false text = Some text.
Proof.
  intros Hc. rewrite newContent_flat. intros [= <-].
  set (header := headerContent content).
  set (sorted := flat_links localeCompare content).
  destruct (decide (header ++ sorted = [])) as [->|Hne]; [done|].
  assert (split_lines (join LF (header ++ sorted)) = header ++ sorted) as Hsplit.
  { apply split_lines_join; [done|]. apply Forall_app. split.
    - unfold header, headerContent, slice0. apply Forall_take, split_lines_no_LF.
    - apply flat_links_no_LF. }
  rewrite Hsplit. intros Hcase.
  assert (Forall stored_line sorted) as Hst by apply flat_links_stored.
  assert (NoDup (url_of_line <$> sorted)) as Hnd.
  { unfold sorted. rewrite flat_links_urls. apply extract_NoDup. }
  assert (StronglySorted (precedes (compare_links localeCompare)) sorted) as Hsorted.
  { apply sort_sorted, compare_links_consistent, Hc. }
  assert (∀ j, sortedLinks localeCompare URL_hostname false (extract (drop j sorted))
               = Some (drop j sorted)) as Hagain.
  { intros j. cbn. f_equal.
    rewrite extract_stored_lines_of.
    - apply sort_id.
      rewrite <- (take_drop j sorted) in Hsorted.
      by apply StronglySorted_app_1_r in Hsorted.
    - by apply Forall_drop.
    - rewrite fmap_drop. eapply sublist_NoDup; [done|apply sublist_drop]. }
  unfold newContent, headerContent, headerEndIndex, slice0.
  rewrite Hsplit, first_header_end_app by apply headerContent_no_end.
  rewrite first_header_end_app in Hcase by apply headerContent_no_end.
  cbn [Nat.add] in *.
  destruct (first_header_end (length header) sorted) as [i|] eqn:E; cbn [default].
  - destruct (first_header_end_spec _ _ _ E) as (j & line & -> & _).
    unfold id. rewrite drop_app_add, take_app_add, Hagain. cbn.
    by rewrite <- app_assoc, take_drop.
  - destruct Hcase as [Hnil|[? [=]]]. fold header in Hnil. rewrite Hnil.
    cbn [app drop take]. rewrite <- (drop_0 sorted) at 1. by rewrite Hagain.
Qed.

End flat_again.

Example sortLinks_run :
  let w := {| files := {[ "README.md" := scenario1 ]}; console := [] |} in
  let options :=
    {| createBackup := true; groupByDomain := false; showStats := false |} in
  let r := sortLinks codeunit_compare plain_hostname 1700000000000
             "README.md" options w in
  files r.1 !! "README.md"
  = Some ("# Links" +:+ LF +:+ "* https://a.com/y" +:+ LF +:+ "* https://b.com/x")
  ∧ files r.1 !! "README.md.backup-1700000000000" = Some scenario1
  ∧ console r.1 = [ "Backup created: README.md.backup-1700000000000";
                    "Sorted 2 links alphabetically!" ]
  ∧ r.2 = Return (collectStatistics plain_hostname scenario1).
Proof. split_and!; reflexivity. Qed.

(** * Further properties *)

(** ** What is counted *)

Section counting_facts.

Implicit Types (s all urls l : list string) (x u : string).

Lemma foldl_Set_add_shape s l :
  ∃ k, foldl Set_add s l = s ++ k ∧ k `sublist_of` l.
Proof.
  revert s. induction l as [|x l IH]; intros s.
  - exists []. by rewrite app_nil_r.
  - cbn [foldl]. destruct (IH (Set_add s x)) as (k & -> & Hk).
    unfold Set_add. case_bool_decide.
    + exists k. split; [done|]. by apply sublist_cons.
    + exists (x :: k). split; [by rewrite <- app_assoc|]. by apply sublist_skip.
Qed.

Lemma foldl_Set_add_elem s l u : u ∈ foldl Set_add s l ↔ u ∈ s ∨ u ∈ l.
Proof.
  revert s. induction l as [|x l IH]; intros s; cbn [foldl].
  - split; [by left|]. by intros [?|?%elem_of_nil].
  - rewrite IH, elem_of_Set_add, elem_of_cons. tauto.
Qed.

Lemma foldl_Set_add_NoDup s l : NoDup s → NoDup (foldl Set_add s l).
Proof.
  revert s. induction l as [|x l IH]; intros s Hs; [done|].
  cbn [foldl]. by apply IH, NoDup_Set_add.
Qed.

Lemma foldl_collect_line acc lines :
  foldl collect_line acc lines
  = (acc.1 ++ link_urls lines, foldl Set_add acc.2 (link_urls lines)).
Proof.
  revert acc. induction lines as [|line lines IH]; intros [all urls].
  - cbn. by rewrite app_nil_r.
  - cbn [foldl]. rewrite IH. unfold link_urls, collect_line.
    rewrite fmap_cons, filter_cons.
    destruct (String.eqb_spec (line_url line) "") as [E|E].
    + by rewrite decide_False by (by intros ?).
    + rewrite decide_True by done. cbn. by rewrite <- app_assoc.
Qed.

Lemma counted_eq content :
  counted content
  = (link_urls (split_lines content),
     foldl Set_add [] (link_urls (split_lines content))).
Proof. unfold counted, collect_links. by rewrite foldl_collect_line. Qed.

Lemma length_omap_filter_None {A B} (f : A → option B) (l : list A) :
  length (filter (λ a, f a = None) l) + length (omap f l) = length l.
Proof.
  induction l as [|a l IH]; [done|].
  rewrite filter_cons. cbn [omap list_omap].
  destruct (f a) eqn:E; cbn.
  - rewrite decide_False by done. cbn. lia.
  - rewrite decide_True by done. cbn. lia.
Qed.

End counting_facts.

(** X1: the counts fit together.  The total is the number of unique links
    plus the duplicates, the duplicates are not negative, there is a link
    exactly when there is a unique link, and every unique link is either
    broken or one whose URL parses. *)
Theorem statistics_cardinality URL_hostname content :
  let st := collectStatistics URL_hostname content in
  Z.of_nat (totalLinks st) = (Z.of_nat (uniqueLinks st) + duplicates st)%Z
  ∧ (0 ≤ duplicates st)%Z
  ∧ uniqueLinks st ≤ totalLinks st
  ∧ (totalLinks st = 0 ↔ uniqueLinks st = 0)
  ∧ length (brokenLinks st) + length (omap URL_hostname (counted content).2)
    = uniqueLinks st
  ∧ length (brokenLinks st) ≤ uniqueLinks st.
Proof.
  intros st. subst st.
  destruct (collectStatistics_counts URL_hostname content) as (-> & -> & -> & _).
  destruct (collectStatistics_tables URL_hostname content) as (-> & _).
  rewrite counted_eq. cbn [fst snd].
  set (all := link_urls (split_lines content)).
  destruct (foldl_Set_add_shape [] all) as (k & Hk & Hsub).
  cbn in Hk. pose proof (sublist_length _ _ Hsub) as Hlen.
  pose proof (length_omap_filter_None URL_hostname (foldl Set_add [] all)) as Hsum.
  assert (length all = 0 ↔ length (foldl Set_add [] all) = 0) as Hzero.
  { split.
    - intros ->%nil_length_inv. done.
    - intros H0%nil_length_inv. destruct all as [|u all']; [done|].
      assert (u ∈ foldl Set_add [] (u :: all')) as Hu
        by (apply foldl_Set_add_elem; right; by left).
      rewrite H0 in Hu. by apply elem_of_nil in Hu. }
  rewrite Hk in *. split_and!; lia.
Qed.

(** X2: which URLs are counted.  [allLinks] holds the URL of every link line,
    in the order of the lines; the set holds each of them once, in an order
    in which they occur, and nothing else: a URL is in the set exactly when
    some line of the document reads as it. *)
Theorem counted_urls content :
  (counted content).1 = link_urls (split_lines content)
  ∧ NoDup (counted content).2
  ∧ (counted content).2 `sublist_of` (counted content).1
  ∧ (∀ u, u ∈ (counted content).2 ↔ u ∈ (counted content).1)
  ∧ (∀ u, u ∈ (counted content).2
          ↔ u ≠ "" ∧ ∃ line, line ∈ split_lines content ∧ line_url line = u).
Proof.
  rewrite counted_eq. cbn [fst snd].
  set (all := link_urls (split_lines content)).
  destruct (foldl_Set_add_shape [] all) as (k & Hk & Hsub). cbn in Hk.
  split_and!.
  - done.
  - apply foldl_Set_add_NoDup. constructor.
  - by rewrite Hk.
  - intros u. rewrite foldl_Set_add_elem. split; [|by right].
    by intros [?%elem_of_nil|?].
  - intros u. rewrite foldl_Set_add_elem. unfold all, link_urls.
    rewrite list_elem_of_filter, list_elem_of_fmap. split.
    + intros [?%elem_of_nil|[Hne (line & -> & Hl)]]; [done|]. eauto.
    + intros [Hne (line & Hl & <-)]. right. eauto.
Qed.

(** ** The tables *)

Section table_facts.

Implicit Types (o : JsObject.object count) (k : string).

Lemma inherited_false_proto k :
  JsObject.inherited k = false → String.eqb k "__proto__" = false.
Proof.
  unfold JsObject.inherited. intros H%bool_decide_eq_false.
  apply String.eqb_neq. intros ->. apply H. by left.
Qed.

Lemma own_increment_other o k k' :
  k ≠ k' → JsObject.own (increment o k) k' = JsObject.own o k'.
Proof.
  intros Hne. unfold increment.
  destruct (JsObject.own o k) as [[n|[|c s]]|];
    rewrite ?own_set, ?decide_False by done; try done.
  destruct (String.eqb k "__proto__"); [done|].
  destruct (JsObject.inherited k); by rewrite own_set, decide_False.
Qed.

Lemma own_increment_same o k :
  JsObject.inherited k = false →
  JsObject.own (increment o k) k
  = Some match JsObject.own o k with
         | Some (Num n) => Num (n + 1)
         | Some (Text "") | None => Num 1
         | Some (Text s) => Text (s +:+ "1")
         end.
Proof.
  intros Hk. unfold increment.
  destruct (JsObject.own o k) as [[n|[|c s]]|];
    rewrite ?own_set, ?decide_True by done; try done.
  rewrite (inherited_false_proto k Hk), Hk.
  by rewrite own_set, decide_True.
Qed.

Lemma increment_keys_NoDup o k : NoDup o.*1 → NoDup (increment o k).*1.
Proof.
  intros Hnd.
  assert (∀ v, NoDup (JsObject.set o k v).*1) as Hset.
  { intros v. rewrite set_keys. case_decide; [done|].
    apply NoDup_app. split_and!; [done| |apply NoDup_singleton].
    by intros x Hx ->%list_elem_of_singleton. }
  unfold increment.
  destruct (JsObject.own o k) as [[n|[|c s]]|]; try apply Hset.
  destruct (String.eqb k "__proto__"); [done|].
  destruct (JsObject.inherited k); apply Hset.
Qed.

Lemma foldl_increment_NoDup ks : NoDup (foldl increment [] ks).*1.
Proof.
  induction ks as [|h ks IH] using rev_ind; [constructor|].
  rewrite foldl_snoc. by apply increment_keys_NoDup.
Qed.

(** Under a name that objects do not inherit, a table built by [increment]
    holds the number of times the name was counted. *)
Lemma foldl_increment_count ks k :
  JsObject.inherited k = false →
  JsObject.own (foldl increment [] ks) k
  = if decide (length (filter (λ h, h = k) ks) = 0) then None
    else Some (Num (N.of_nat (length (filter (λ h, h = k) ks)))).
Proof.
  intros Hk. induction ks as [|h ks IH] using rev_ind; [done|].
  rewrite foldl_snoc, filter_app, length_app, filter_cons, filter_nil.
  destruct (decide (h = k)) as [->|Hne]; cbn [length].
  - rewrite own_increment_same, IH by done.
    set (c := length (filter (λ h, h = k) ks)).
    destruct (decide (c = 0)) as [Hc|Hc], (decide (c + 1 = 0)); try lia.
    + by rewrite Hc.
    + do 2 f_equal. lia.
  - rewrite own_increment_other, IH by done. rewrite Nat.add_0_r. done.
Qed.

End table_facts.

(** X3: what the tables hold.  For a domain that is not a name objects
    inherit, [domainStats] has no entry when no unique URL that parses has
    this host (its leading [www.] removed), and otherwise the number of
    these URLs; the same holds for [topLevelDomainStats] and the TLDs of
    these hosts; and no key occurs twice in either table. *)
Theorem table_counts URL_hostname content d :
  JsObject.inherited d = false →
  let st := collectStatistics URL_hostname content in
  let hosts := strip_www <$> omap URL_hostname (counted content).2 in
  let tlds :=
    (λ h, tld_of (strip_www h)) <$> omap URL_hostname (counted content).2 in
  JsObject.own (domainStats st) d
  = (if decide (length (filter (λ h, h = d) hosts) = 0) then None
     else Some (Num (N.of_nat (length (filter (λ h, h = d) hosts)))))
  ∧ JsObject.own (topLevelDomainStats st) d
    = (if decide (length (filter (λ h, h = d) tlds) = 0) then None
       else Some (Num (N.of_nat (length (filter (λ h, h = d) tlds)))))
  ∧ NoDup (domainStats st).*1
  ∧ NoDup (topLevelDomainStats st).*1.
Proof.
  intros Hd st hosts tlds. subst st hosts tlds.
  destruct (collectStatistics_tables URL_hostname content) as (_ & -> & ->).
  split_and!.
  - by apply foldl_increment_count.
  - by apply foldl_increment_count.
  - apply foldl_increment_NoDup.
  - apply foldl_increment_NoDup.
Qed.

Lemma table_counts_witness :
  JsObject.inherited "com" = false
  ∧ JsObject.own (domainStats (collectStatistics plain_hostname scenario5)) "com"
    = None
  ∧ JsObject.own (topLevelDomainStats (collectStatistics plain_hostname scenario5))
      "com"
    = Some (Num 3).
Proof.
  split; [reflexivity|].
  destruct (table_counts plain_hostname scenario5 "com") as (H1 & H2 & _);
    [reflexivity|].
  split; [exact H1|exact H2].
Defined.

(** ** The lines written *)

Lemma NoDup_concat_map {A B} (chunk : A → list B) ds :
  NoDup ds →
  (∀ d, d ∈ ds → NoDup (chunk d)) →
  (∀ d1 d2 x, d1 ∈ ds → d2 ∈ ds → x ∈ chunk d1 → x ∈ chunk d2 → d1 = d2) →
  NoDup (concat (map chunk ds)).
Proof.
  induction ds as [|d ds IH]; intros Hnd Hchunk Hdisj; [constructor|].
  apply NoDup_cons in Hnd as [Hd Hnd]. cbn. apply NoDup_app. split_and!.
  - apply Hchunk. by left.
  - intros x Hx (l & (d2 & -> & Hd2)%list_elem_of_fmap & Hx2)%elem_of_concat.
    apply Hd. rewrite (Hdisj d d2 x); [done|by left|by right|done|done].
  - apply IH; [done| |].
    + intros. apply Hchunk. by right.
    + intros d1 d2 x ? ?. apply Hdisj; by right.
Qed.

Section written_lines.

Context (localeCompare : string → string → Z).
Context (URL_hostname : string → option string).

Lemma lines_of_urls_NoDup body us :
  NoDup us → (∀ u, u ∈ us → u ∈ rawUrls (extract body)) →
  NoDup (line_of (urlToLineMap (extract body)) <$> us).
Proof.
  intros Hnd Hsub. apply NoDup_fmap_2_strong; [|done].
  intros u v Hu Hv Heq.
  destruct (extract_lookup body u (Hsub u Hu)) as (_ & _ & <- & _).
  destruct (extract_lookup body v (Hsub v Hv)) as (_ & _ & <- & _).
  by rewrite Heq.
Qed.

Lemma sortedLinks_NoDup groupByDomain body out :
  sortedLinks localeCompare URL_hostname groupByDomain (extract body) = Some out →
  NoDup out.
Proof.
  destruct groupByDomain.
  - intros (G & Hok & ->)%sortedLinks_grouped_eq.
    apply NoDup_concat_map.
    + rewrite sort_perm, keys_perm. apply Hok.
    + intros d _. rewrite sort_perm. apply lines_of_urls_NoDup.
      * apply NoDup_filter, extract_NoDup.
      * by intros u [_ ?]%list_elem_of_filter.
    + intros d1 d2 x _ _ (u & Hu & <- & ->)%chunk_elem (v & Hv & <- & Heq)%chunk_elem.
      destruct (extract_lookup body u Hu) as (_ & _ & <- & _).
      destruct (extract_lookup body v Hv) as (_ & _ & <- & _).
      by rewrite Heq.
  - cbn. intros [= <-]. rewrite sort_perm.
    by apply lines_of_urls_NoDup; [apply extract_NoDup|].
Qed.

(** In both modes the lines written after the header are the stored lines
    of the unique URLs, in some order. *)
Lemma sortedLinks_Permutation groupByDomain body out :
  sortedLinks localeCompare URL_hostname groupByDomain (extract body) = Some out →
  out ≡ₚ line_of (urlToLineMap (extract body)) <$> rawUrls (extract body).
Proof.
  intros Hout. apply NoDup_Permutation.
  - by eapply sortedLinks_NoDup.
  - by apply lines_of_urls_NoDup; [apply extract_NoDup|].
  - intros A. rewrite (sortedLinks_elem _ _ _ _ _ Hout), list_elem_of_fmap.
    split; intros (u & ? & ?); by exists u.
Qed.

Lemma rawUrls_foldl_extract st body :
  rawUrls (foldl extract_line st body)
  = foldl Set_add (rawUrls st) (link_urls body).
Proof.
  revert st. induction body as [|r body IH]; intros st; [done|].
  cbn [foldl]. rewrite IH. unfold link_urls.
  rewrite fmap_cons, filter_cons, <- classify_url. unfold extract_line.
  destruct (classify r) as [u l]. cbn [fst].
  destruct (String.eqb_spec u "") as [E|E].
  - by rewrite decide_False by (by intros ?).
  - by rewrite decide_True.
Qed.

Lemma link_urls_app l1 l2 : link_urls (l1 ++ l2) = link_urls l1 ++ link_urls l2.
Proof. unfold link_urls. by rewrite fmap_app, filter_app. Qed.

Lemma link_urls_no_links l :
  Forall (λ r, is_link_line r = false) l → link_urls l = [].
Proof.
  induction 1 as [|r l Hr _ IH]; [done|].
  unfold link_urls in *. rewrite fmap_cons, filter_cons, IH.
  unfold is_link_line in Hr. apply negb_false_iff, String.eqb_eq in Hr.
  by rewrite decide_False by (by intros ?).
Qed.

Lemma length_link_urls l : length (link_urls l) ≤ length l.
Proof.
  unfold link_urls. etrans; [apply length_filter|]. by rewrite length_fmap.
Qed.

End written_lines.

(** X4: the flat order.  With a consistent [localeCompare] the flat run writes
    the header and then one line for each unique URL of the lines after the
    header, the stored line of that URL, and of two of these lines the
    earlier one is not greater than the later one, both compared without
    their bullet and in lower case. *)
Theorem flat_order localeCompare URL_hostname content :
  Consistent localeCompare →
  let out := flat_links localeCompare content in
  newContent localeCompare URL_hostname false content
  = Some (join LF (headerContent content ++ out))
  ∧ out ≡ₚ line_of (urlToLineMap (extracted content)) <$> rawUrls (extracted content)
  ∧ url_of_line <$> out ≡ₚ rawUrls (extracted content)
  ∧ NoDup out
  ∧ length out = length (rawUrls (extracted content))
  ∧ ∀ i j A B, out !! i = Some A → out !! j = Some B → i < j →
      (localeCompare (toLowerCase (replace A "* " ""))
                     (toLowerCase (replace B "* " "")) ≤ 0)%Z.
Proof.
  intros Hc out. subst out. split_and!.
  - done.
  - unfold flat_links. by rewrite sort_perm.
  - apply flat_links_urls.
  - apply (NoDup_fmap_1 url_of_line). rewrite flat_links_urls.
    apply extract_NoDup.
  - unfold flat_links. by rewrite length_sort, length_fmap.
  - intros i j A B HA HB Hij.
    apply (StronglySorted_lookup (precedes (compare_links localeCompare))
             (flat_links localeCompare content) i j A B); try done.
    apply sort_sorted, compare_links_consistent, Hc.
Qed.

Lemma flat_order_witness :
  Consistent codeunit_compare
  ∧ flat_links codeunit_compare scenario1
    = ["* https://a.com/y"; "* https://b.com/x"]
  ∧ NoDup (flat_links codeunit_compare scenario1).
Proof.
  split; [exact codeunit_consistent|]. split; [reflexivity|].
  by destruct (flat_order codeunit_compare plain_hostname scenario1
                 codeunit_consistent) as (_ & _ & _ & H & _).
Defined.

(** X5: grouping changes the order only.  When the grouped run writes, the
    lines it writes after the header are those of the flat run in another
    order: each once, as many as there are unique URLs after the header. *)
Theorem grouped_same_lines localeCompare URL_hostname content out :
  sortedLinks localeCompare URL_hostname true (extracted content) = Some out →
  out ≡ₚ flat_links localeCompare content
  ∧ NoDup out
  ∧ length out = length (rawUrls (extracted content)).
Proof.
  intros Hout. pose proof (sortedLinks_Permutation _ _ _ _ _ Hout) as Hperm.
  split_and!.
  - unfold flat_links. by rewrite sort_perm.
  - by eapply sortedLinks_NoDup.
  - unfold extracted. by rewrite Hperm, length_fmap.
Qed.

Lemma grouped_same_lines_witness :
  sortedLinks codeunit_compare plain_hostname true (extracted scenario5)
  = Some ["* https://www.a.com/2"; "* https://b.com/3"; "* https://sub.a.com/1"]
  ∧ ["* https://www.a.com/2"; "* https://b.com/3"; "* https://sub.a.com/1"]
    ≡ₚ flat_links codeunit_compare scenario5.
Proof.
  split; [reflexivity|].
  by destruct (grouped_same_lines codeunit_compare plain_hostname scenario5
                 ["* https://www.a.com/2"; "* https://b.com/3";
                  "* https://sub.a.com/1"] eq_refl) as (H & _).
Defined.

Lemma foldl_extract_keep st body u :
  Forall (λ r, (classify r).1 ≠ u) body →
  urlToLineMap (foldl extract_line st body) !! u = urlToLineMap st !! u.
Proof.
  revert st. induction body as [|r body IH]; intros st Hb; [done|].
  inversion_clear Hb as [|? ? Hr Hrest]. cbn [foldl]. rewrite IH by done.
  unfold extract_line. destruct (classify r) as [v l]. cbn in Hr.
  destruct (String.eqb v ""); [done|]. cbn. by rewrite lookup_insert_ne.
Qed.

(** X6: of several link lines with the same URL the last one is written.
    When a link line is followed by no other line with its URL, the line
    stored for this URL is the one the link loop makes of this line,
    whatever lines with the same URL stand before it. *)
Theorem last_occurrence_wins before rawLine after u l :
  classify rawLine = (u, l) → u ≠ "" →
  Forall (λ r, line_url r ≠ u) after →
  u ∈ rawUrls (extract (before ++ rawLine :: after))
  ∧ line_of (urlToLineMap (extract (before ++ rawLine :: after))) u = l.
Proof.
  intros Hc Hne Hafter. split.
  - unfold extract. rewrite rawUrls_foldl_extract, foldl_Set_add_elem.
    right. rewrite link_urls_app. apply elem_of_app. right.
    unfold link_urls. rewrite fmap_cons, filter_cons, <- classify_url, Hc.
    cbn. rewrite decide_True by done. by left.
  - unfold line_of, extract. rewrite foldl_app. cbn [foldl].
    rewrite foldl_extract_keep.
    + rewrite (extract_line_link _ _ _ _ Hc Hne). cbn.
      by rewrite lookup_insert_eq.
    + eapply Forall_impl; [exact Hafter|]. intros r. by rewrite classify_url.
Qed.

Lemma last_occurrence_wins_witness :
  classify "*   https://a.com" = ("https://a.com", "*   https://a.com")
  ∧ "https://a.com" ≠ ""
  ∧ Forall (λ r, line_url r ≠ "https://a.com") ["* https://b.com"]
  ∧ line_of (urlToLineMap
               (extract (["https://a.com"; "* https://a.com"]
                         ++ "*   https://a.com" :: ["* https://b.com"])))
            "https://a.com"
    = "*   https://a.com".
Proof.
  assert (Forall (λ r, line_url r ≠ "https://a.com") ["* https://b.com"]) as Hafter
    by (repeat constructor; discriminate).
  split; [reflexivity|]. split; [discriminate|]. split; [exact Hafter|].
  by destruct (last_occurrence_wins ["https://a.com"; "* https://a.com"]
                 "*   https://a.com" ["* https://b.com"]
                 "https://a.com" "*   https://a.com" eq_refl
                 ltac:(discriminate) Hafter) as [_ H].
Defined.

(** X7 is [flat_sort_idempotent] above: run on its own output, the flat sort
    writes the same text again when the first header is empty or the output
    has a line that ends a header. *)
Lemma flat_sort_idempotent_witness :
  Consistent codeunit_compare
  ∧ newContent codeunit_compare plain_hostname false scenario1
    = Some ("# Links" +:+ LF +:+ "* https://a.com/y" +:+ LF +:+ "* https://b.com/x")
  ∧ is_Some (first_header_end 0
               (split_lines ("# Links" +:+ LF +:+ "* https://a.com/y" +:+ LF
                             +:+ "* https://b.com/x")))
  ∧ newContent codeunit_compare plain_hostname false
      ("# Links" +:+ LF +:+ "* https://a.com/y" +:+ LF +:+ "* https://b.com/x")
    = Some ("# Links" +:+ LF +:+ "* https://a.com/y" +:+ LF +:+ "* https://b.com/x").
Proof.
  assert (is_Some (first_header_end 0
            (split_lines ("# Links" +:+ LF +:+ "* https://a.com/y" +:+ LF
                          +:+ "* https://b.com/x")))) as Hend by (by eexists).
  split; [exact codeunit_consistent|]. split; [reflexivity|].
  split; [exact Hend|].
  exact (flat_sort_idempotent codeunit_compare plain_hostname scenario1 _
           codeunit_consistent eq_refl (or_intror Hend)).
Defined.

(** X8 is [no_links_run] above: a document without link lines is written
    back as its header alone, and as the empty text when no line ends the
    header. *)
Lemma no_links_run_witness :
  Forall (λ l, is_link_line l = false) (split_lines notes_only)
  ∧ uniqueLinks (collectStatistics plain_hostname notes_only) = 0
  ∧ newContent codeunit_compare plain_hostname false notes_only
    = Some (join LF (headerContent notes_only)).
Proof.
  assert (Forall (λ l, is_link_line l = false) (split_lines notes_only)) as Hno
    by (by repeat constructor).
  split; [exact Hno|].
  destruct (no_links_run codeunit_compare plain_hostname false notes_only Hno)
    as (H1 & H2 & _).
  split; [exact H1|exact H2].
Defined.

(** X9: what is written has been counted.  Every URL written after the
    header is one of the unique links of the statistics, so a run never
    writes more links than it counts; it writes as many when the header has
    no link line; and header and links together are never more lines than
    the document had. *)
Theorem written_links_counted localeCompare URL_hostname groupByDomain content :
  (∀ u, u ∈ rawUrls (extracted content) → u ∈ (counted content).2)
  ∧ (∀ out,
       sortedLinks localeCompare URL_hostname groupByDomain (extracted content)
       = Some out →
       length out ≤ uniqueLinks (collectStatistics URL_hostname content)
       ∧ length (headerContent content ++ out) ≤ length (split_lines content)
       ∧ (Forall (λ l, is_link_line l = false) (headerContent content) →
          length out = uniqueLinks (collectStatistics URL_hostname content)))
  ∧ (Forall (λ l, is_link_line l = false) (headerContent content) →
     rawUrls (extracted content) = (counted content).2).
Proof.
  set (lines := split_lines content).
  set (h := headerEndIndex lines).
  assert (rawUrls (extracted content) = foldl Set_add [] (link_urls (drop h lines)))
    as Hurls by (unfold extracted, extract; by rewrite rawUrls_foldl_extract).
  assert (link_urls lines = link_urls (take h lines) ++ link_urls (drop h lines))
    as Hsplit by (by rewrite <- link_urls_app, take_drop).
  assert (∀ u, u ∈ rawUrls (extracted content) → u ∈ (counted content).2) as Hsub.
  { intros u. rewrite Hurls, counted_eq. cbn [snd].
    rewrite !foldl_Set_add_elem. fold lines. rewrite Hsplit, elem_of_app. tauto. }
  assert (Forall (λ l, is_link_line l = false) (headerContent content) →
          rawUrls (extracted content) = (counted content).2) as Heq.
  { intros Hh. rewrite Hurls, counted_eq. cbn [snd]. fold lines.
    rewrite Hsplit.
    assert (link_urls (take h lines) = []) as ->
      by exact (link_urls_no_links _ Hh).
    done. }
  destruct (collectStatistics_counts URL_hostname content) as (_ & Huniq & _).
  split_and!; [done| |done].
  intros out Hout.
  assert (length out = length (rawUrls (extracted content))) as Hlen.
  { unfold extracted.
    by rewrite (sortedLinks_Permutation _ _ _ _ _ Hout), length_fmap. }
  rewrite Hlen, Huniq. split_and!.
  - apply submseteq_length, NoDup_submseteq; [apply extract_NoDup|done].
  - rewrite length_app, Hlen, Hurls.
    destruct (foldl_Set_add_shape [] (link_urls (drop h lines))) as (k & -> & Hk).
    cbn. pose proof (sublist_length _ _ Hk) as Hk'.
    pose proof (length_link_urls (drop h lines)) as Hl.
    assert (length (take h lines) + length (drop h lines) = length lines) as Hall
      by (by rewrite <- length_app, take_drop).
    unfold headerContent, slice0. fold lines h. lia.
  - intros Hh. by rewrite (Heq Hh).
Qed.

(** ** Files *)

Lemma append_ne p s : s ≠ "" → p +:+ s ≠ p.
Proof.
  intros Hs. induction p as [|c p IH]; [by rewrite app_empty|].
  rewrite app_cons. by intros [= ?].
Qed.

Lemma backup_path_ne path (now : Z) : path +:+ ".backup-" +:+ pretty now ≠ path.
Proof. by apply append_ne. Qed.

Lemma sortLinks_other localeCompare URL_hostname now readmePath options w p :
  p ≠ readmePath →
  createBackup options = false ∨ p ≠ readmePath +:+ ".backup-" +:+ pretty now →
  files (sortLinks localeCompare URL_hostname now readmePath options w).1 !! p
  = files w !! p.
Proof.
  intros Hp Hb. unfold sortLinks.
  destruct (files w !! readmePath) as [content|]; [|done].
  set (w1 := if createBackup options then _ else w).
  assert (files w1 !! p = files w !! p) as Hw1.
  { subst w1. destruct (createBackup options); [|done]. cbn.
    destruct Hb as [?|Hb]; [done|]. by rewrite lookup_insert_ne. }
  destruct (sortedLinks _ _ _ _) as [sorted|]; cbn; [|done].
  destruct (showStats options); cbn; by rewrite lookup_insert_ne.
Qed.

Lemma sortLinks_backup localeCompare URL_hostname now readmePath options w content :
  files w !! readmePath = Some content → createBackup options = true →
  files (sortLinks localeCompare URL_hostname now readmePath options w).1
    !! (readmePath +:+ ".backup-" +:+ pretty now)
  = Some content.
Proof.
  intros Hfile Hb. unfold sortLinks. rewrite Hfile, Hb.
  pose proof (backup_path_ne readmePath now) as Hne.
  destruct (sortedLinks _ _ _ _) as [sorted|]; cbn.
  - destruct (showStats options); cbn;
      by rewrite lookup_insert_ne, lookup_insert_eq.
  - by rewrite lookup_insert_eq.
Qed.

Lemma sortLinks_console localeCompare URL_hostname now readmePath options w :
  console w
  `prefix_of` console (sortLinks localeCompare URL_hostname now readmePath options w).1.
Proof.
  unfold sortLinks. destruct (files w !! readmePath) as [content|]; [|done].
  set (w1 := if createBackup options then _ else w).
  assert (console w `prefix_of` console w1) as Hw1.
  { subst w1. destruct (createBackup options); [|done]. cbn.
    by apply prefix_app_r. }
  destruct (sortedLinks _ _ _ _) as [sorted|]; cbn; [|done].
  destruct (showStats options); cbn.
  - by do 2 apply prefix_app_r.
  - by apply prefix_app_r.
Qed.

(** X10: what a run of [sortLinks] does to the files.  On an existing file
    it leaves the new text in it and returns the statistics of the old
    text, or, when grouping throws, leaves the file as it was; with
    [createBackup] the backup file holds the old text in both cases; no
    other file changes; and nothing is taken back from the console. *)
Theorem sortLinks_effects localeCompare URL_hostname now readmePath options w content :
  files w !! readmePath = Some content →
  let r := sortLinks localeCompare URL_hostname now readmePath options w in
  let backupPath := readmePath +:+ ".backup-" +:+ pretty now in
  match newContent localeCompare URL_hostname (groupByDomain options) content with
  | Some text =>
      files r.1 !! readmePath = Some text
      ∧ r.2 = Return (collectStatistics URL_hostname content)
  | None =>
      files r.1 !! readmePath = Some content ∧ r.2 = Throw "TypeError"
  end
  ∧ (createBackup options = true → files r.1 !! backupPath = Some content)
  ∧ (∀ p, p ≠ readmePath →
          createBackup options = false ∨ p ≠ backupPath →
          files r.1 !! p = files w !! p)
  ∧ console w `prefix_of` console r.1.
Proof.
  intros Hfile r backupPath. subst r backupPath. split_and!.
  - by apply sortLinks_file.
  - by apply sortLinks_backup.
  - intros p. apply sortLinks_other.
  - apply sortLinks_console.
Qed.

Lemma sortLinks_effects_witness :
  files {| files := {[ "README.md" := scenario1 ]}; console := [] |} !! "README.md"
  = Some scenario1
  ∧ files (sortLinks codeunit_compare plain_hostname 1700000000000 "README.md"
             {| createBackup := true; groupByDomain := false; showStats := false |}
             {| files := {[ "README.md" := scenario1 ]}; console := [] |}).1
      !! "README.md.backup-1700000000000"
    = Some scenario1.
Proof.
  assert (files {| files := {[ "README.md" := scenario1 ]}; console := [] |}
            !! "README.md" = Some scenario1) as Hfile by reflexivity.
  split; [exact Hfile|].
  destruct (sortLinks_effects codeunit_compare plain_hostname 1700000000000
              "README.md"
              {| createBackup := true; groupByDomain := false;
                 showStats := false |}
              {| files := {[ "README.md" := scenario1 ]}; console := [] |}
              scenario1 Hfile) as (_ & H & _).
  by apply H.
Defined.

(** ** The report *)

(** X11: the length of the report.  At most ten domains and ten top-level
    domains are listed, as many as the tables have when they have fewer;
    of the broken URLs five are listed at most, after one heading and
    before one more line when there are more than five; so the report has
    between 10 and 37 lines. *)
Theorem report_length stats :
  length (domain_lines stats) = length (domainStats stats) `min` 10
  ∧ length (tld_lines stats) = length (topLevelDomainStats stats) `min` 10
  ∧ length (broken_lines stats)
    = (if decide (length (brokenLinks stats) = 0) then 0
       else 1 + length (brokenLinks stats) `min` 5
            + (if decide (5 < length (brokenLinks stats)) then 1 else 0))
  ∧ 10 ≤ length (printLinkStatistics stats) ≤ 37.
Proof.
  assert (length (domain_lines stats) = length (domainStats stats) `min` 10) as Hd.
  { unfold domain_lines, slice0.
    rewrite length_fmap, length_take, length_sort, entries_perm. lia. }
  assert (length (tld_lines stats) = length (topLevelDomainStats stats) `min` 10) as Ht.
  { unfold tld_lines, slice0.
    rewrite length_fmap, length_take, length_sort, entries_perm. lia. }
  assert (length (broken_lines stats)
          = (if decide (length (brokenLinks stats) = 0) then 0
             else 1 + length (brokenLinks stats) `min` 5
                  + (if decide (5 < length (brokenLinks stats)) then 1 else 0))) as Hb.
  { unfold broken_lines, slice0.
    destruct (Nat.ltb_spec 0 (length (brokenLinks stats))) as [H0|H0].
    - rewrite decide_False by lia.
      rewrite !length_app, length_fmap, length_take. cbn [length].
      destruct (Nat.ltb_spec 5 (length (brokenLinks stats))) as [H5|H5].
      + rewrite decide_True by lia. cbn [length]. lia.
      + rewrite decide_False by lia. cbn [length]. lia.
    - rewrite decide_True by lia. done. }
  split_and!; [done|done|done| |];
    unfold printLinkStatistics;
    rewrite !length_app, Hd, Ht, Hb; cbn [length protocol_lines];
    repeat case_decide; lia.
Qed.

Lemma in_take {A} (x : A) n l : x ∈ take n l → x ∈ l.
Proof. intros H. eapply elem_of_sublist; [exact H|apply sublist_take]. Qed.

Lemma in_drop {A} (x : A) n l : x ∈ drop n l → x ∈ l.
Proof. intros H. eapply elem_of_sublist; [exact H|apply sublist_drop]. Qed.

Section sort_on.

Context {A : Type} (compare : A → A → Z) (P : A → Prop).
Hypothesis swap : ∀ a b, P a → P b → (compare a b < 0 ↔ 0 < compare b a)%Z.
Hypothesis trans : ∀ a b c, P a → P b → P c →
  (compare a b ≤ 0 → compare b c ≤ 0 → compare a c ≤ 0)%Z.

Lemma insert_sorted_on x l :
  P x → Forall P l → StronglySorted (precedes compare) l →
  StronglySorted (precedes compare) (insert_sorted compare x l).
Proof.
  intros Hx. induction l as [|y l IH]; intros HP Hl; cbn.
  - by repeat constructor.
  - apply Forall_cons in HP as [Hy HP].
    apply StronglySorted_cons in Hl as [Hyl Hl].
    destruct (0 <? compare x y)%Z eqn:E.
    + apply Z.ltb_lt in E.
      apply StronglySorted_cons. split; [|by apply IH].
      rewrite insert_sorted_perm. constructor; [|done].
      unfold precedes. apply swap in E; [lia|done|done].
    + apply Z.ltb_ge in E.
      apply StronglySorted_cons. split; [|by apply StronglySorted_cons].
      constructor; [done|].
      rewrite Forall_forall in Hyl, HP |- *. intros z Hz.
      apply (trans x y z); [done|done|by apply HP|done|by apply Hyl].
Qed.

Lemma sort_sorted_on l :
  Forall P l → StronglySorted (precedes compare) (sort compare l).
Proof.
  induction l as [|x l IH]; intros HP; [constructor|].
  apply Forall_cons in HP as [Hx HP].
  apply insert_sorted_on; [done| |by apply IH].
  apply Forall_forall. intros y Hy%elem_of_sort.
  rewrite Forall_forall in HP. by apply HP.
Qed.

End sort_on.

Section counts_only.

Implicit Types (o : JsObject.object count) (k : string).

Lemma own_Some_elem o k v : JsObject.own o k = Some v → (k, v) ∈ o.
Proof.
  induction o as [|[k' v'] o IH]; cbn; [done|].
  destruct (String.eqb_spec k' k) as [->|_].
  - intros [= ->]. by left.
  - intros H. right. by apply IH.
Qed.

Lemma elem_of_set o k v e : e ∈ JsObject.set o k v → e ∈ o ∨ e = (k, v).
Proof.
  induction o as [|[k' v'] o IH]; cbn.
  - intros ->%list_elem_of_singleton. by right.
  - destruct (String.eqb k' k).
    + intros [->|?]%elem_of_cons; [by right|left; by right].
    + intros [->|[?|?]%IH]%elem_of_cons; [left; by left|left; by right|by right].
Qed.

Lemma increment_counts_only o k :
  JsObject.inherited k = false →
  Forall (λ e, ∃ n, e.2 = Num n) o →
  Forall (λ e, ∃ n, e.2 = Num n) (increment o k).
Proof.
  intros Hk Ho.
  assert (∀ n, Forall (λ e, ∃ n, e.2 = Num n) (JsObject.set o k (Num n))) as Hset.
  { intros n. apply Forall_forall. intros e [He| ->]%elem_of_set; [|by eexists].
    rewrite Forall_forall in Ho. by apply Ho. }
  unfold increment.
  destruct (JsObject.own o k) as [[n|s]|] eqn:E.
  - apply Hset.
  - apply own_Some_elem in E. rewrite Forall_forall in Ho.
    by destruct (Ho _ E) as [? [=]].
  - rewrite (inherited_false_proto k Hk), Hk. apply Hset.
Qed.

Lemma foldl_increment_counts_only ks :
  Forall (λ k, JsObject.inherited k = false) ks →
  Forall (λ e, ∃ n, e.2 = Num n) (foldl increment [] ks).
Proof.
  induction ks as [|k ks IH] using rev_ind; intros Hks; [constructor|].
  apply Forall_app in Hks as [Hks Hk]. inversion_clear Hk.
  rewrite foldl_snoc. by apply increment_counts_only; [|apply IH].
Qed.

(** On a table of counts the listed entries are in descending order, and no
    entry left out counts more than a listed one. *)
Lemma top_entries_sorted o :
  Forall (λ e, ∃ n, e.2 = Num n) o →
  (∀ i j a b, top_entries o !! i = Some a → top_entries o !! j = Some b →
     i < j → (count_of b ≤ count_of a)%N)
  ∧ (∀ a e, a ∈ top_entries o → e ∈ o → e ∉ top_entries o →
       (count_of e ≤ count_of a)%N).
Proof.
  intros Ho.
  assert (∀ a b : string * count,
            (∃ n, a.2 = Num n) → (∃ n, b.2 = Num n) →
            (by_count_desc a b ≤ 0)%Z → (count_of b ≤ count_of a)%N) as Hle.
  { intros [? ?] [? ?] [n Hn] [m Hm]. cbn in Hn, Hm. subst.
    unfold by_count_desc, count_of. cbn. lia. }
  assert (Forall (λ e, ∃ n, e.2 = Num n) (JsObject.entries o)) as He
    by (by rewrite entries_perm).
  assert (StronglySorted (precedes by_count_desc)
            (sort by_count_desc (JsObject.entries o))) as Hsorted.
  { apply (sort_sorted_on by_count_desc (λ e, ∃ n, e.2 = Num n)); [| |done].
    - intros [? ?] [? ?] [n Hn] [m Hm]. cbn in Hn, Hm. subst.
      unfold by_count_desc. cbn. lia.
    - intros [? ?] [? ?] [? ?] [n Hn] [m Hm] [q Hq]. cbn in Hn, Hm, Hq. subst.
      unfold by_count_desc. cbn. lia. }
  assert (∀ e, e ∈ sort by_count_desc (JsObject.entries o) → ∃ n, e.2 = Num n) as Hnum.
  { intros e. rewrite elem_of_sort, entries_perm. rewrite Forall_forall in Ho.
    apply Ho. }
  rewrite <- (take_drop 10 (sort by_count_desc (JsObject.entries o))) in Hsorted.
  apply StronglySorted_app in Hsorted as (Hcross & Htop & _).
  unfold top_entries, slice0. split.
  - intros i j a b Ha Hb Hij. apply Hle.
    + apply Hnum. eapply in_take, list_elem_of_lookup_2, Ha.
    + apply Hnum. eapply in_take, list_elem_of_lookup_2, Hb.
    + by apply (StronglySorted_lookup _ _ i j a b Htop).
  - intros a e Ha He' Hout.
    assert (e ∈ sort by_count_desc (JsObject.entries o)) as Hin
      by (by rewrite elem_of_sort, entries_perm).
    rewrite <- (take_drop 10 (sort by_count_desc (JsObject.entries o))) in Hin.
    apply elem_of_app in Hin as [?|Hdrop]; [done|].
    apply Hle.
    + apply Hnum. eapply in_take, Ha.
    + apply Hnum. eapply in_drop, Hdrop.
    + by apply Hcross.
Qed.

End counts_only.

(** X12: the top ten.  When no host of a unique URL is a name that objects
    inherit, the report lists the domains with their counts, greater counts
    first, and every domain it leaves out counts no more than any domain it
    lists. *)
Theorem top_domains_descending URL_hostname content :
  let stats := collectStatistics URL_hostname content in
  Forall (λ h, JsObject.inherited h = false)
         (strip_www <$> omap URL_hostname (counted content).2) →
  domain_lines stats
  = (λ e, "  " +:+ e.1 +:+ ": " +:+ pretty (count_of e) +:+ " links")
      <$> top_entries (domainStats stats)
  ∧ (∀ i j a b, top_entries (domainStats stats) !! i = Some a →
       top_entries (domainStats stats) !! j = Some b →
       i < j → (count_of b ≤ count_of a)%N)
  ∧ (∀ a e, a ∈ top_entries (domainStats stats) → e ∈ domainStats stats →
       e ∉ top_entries (domainStats stats) → (count_of e ≤ count_of a)%N).
Proof.
  intros stats Hhosts.
  assert (Forall (λ e, ∃ n, e.2 = Num n) (domainStats stats)) as Hnum.
  { subst stats.
    destruct (collectStatistics_tables URL_hostname content) as (_ & -> & _).
    by apply foldl_increment_counts_only. }
  destruct (top_entries_sorted _ Hnum) as [H1 H2].
  split_and!; [|done|done].
  unfold domain_lines. fold (top_entries (domainStats stats)).
  apply list_fmap_ext. intros i e He%list_elem_of_lookup_2.
  assert (e ∈ domainStats stats) as Hin.
  { unfold top_entries, slice0 in He. apply in_take in He.
    by rewrite elem_of_sort, entries_perm in He. }
  rewrite Forall_forall in Hnum. destruct (Hnum e Hin) as [n Hn].
  unfold show_count, count_of. by rewrite Hn.
Qed.

Lemma top_domains_descending_witness :
  Forall (λ h, JsObject.inherited h = false)
         (strip_www <$> omap plain_hostname (counted scenario5).2)
  ∧ domain_lines (collectStatistics plain_hostname scenario5)
    = ["  sub.a.com: 1 links"; "  a.com: 1 links"; "  b.com: 1 links"].
Proof.
  assert (Forall (λ h, JsObject.inherited h = false)
            (strip_www <$> omap plain_hostname (counted scenario5).2)) as H
    by (by repeat constructor).
  split; [exact H|].
  destruct (top_domains_descending plain_hostname scenario5 H) as (-> & _).
  reflexivity.
Defined.

(** ** The command line *)

Section arguments.

Implicit Types (args rest : list string) (o : Cli.options) (arg flag : string).

Lemma given_nil flag : given flag [] = false.
Proof. done. Qed.

Lemma given_cons flag arg rest :
  given flag (arg :: rest) = String.eqb arg flag || given flag rest.
Proof.
  unfold given. destruct (String.eqb_spec arg flag) as [->|Hne]; cbn.
  - apply bool_decide_eq_true. by left.
  - apply bool_decide_ext. rewrite elem_of_cons.
    split; [|by right]. by intros [->|?].
Qed.

Lemma not_given flag args : flag ∉ args ↔ given flag args = false.
Proof. unfold given. by rewrite bool_decide_eq_false. Qed.

Lemma is_given flag args : given flag args = true → flag ∈ args.
Proof. apply bool_decide_eq_true_1. Qed.

Lemma positional_cons arg rest :
  positional (arg :: rest)
  = if startsWith arg "-" then positional rest else arg :: positional rest.
Proof.
  unfold positional. rewrite filter_cons.
  destruct (startsWith arg "-"); by case_decide.
Qed.

Lemma options_of_nil o : options_of [] o = o.
Proof.
  destruct o. unfold options_of. cbn.
  by rewrite !andb_true_r, !orb_false_r.
Qed.

Ltac close_options o :=
  destruct o as [? [] [] [] []]; cbn;
  repeat match goal with
         | |- context [given ?f ?l] => destruct (given f l)
         | |- context [last ?l] => destruct (last l)
         end;
  done.

(** Arguments without [--file], [-f], [--help] and [-h] take the loop of
    [parseArgs] from [o] to [options_of], whatever follows them. *)
Lemma parse_app args rest o :
  given "--file" args = false → given "-f" args = false →
  given "--help" args = false → given "-h" args = false →
  Cli.parse (args ++ rest) o = Cli.parse rest (options_of args o).
Proof.
  revert o. induction args as [|arg args IH]; intros o Hf1 Hf2 Hh1 Hh2.
  - cbn. by rewrite options_of_nil.
  - rewrite given_cons in Hf1, Hf2, Hh1, Hh2.
    apply orb_false_iff in Hf1 as [Ef1 Hf1], Hf2 as [Ef2 Hf2],
                           Hh1 as [Eh1 Hh1], Hh2 as [Eh2 Hh2].
    cbn [app Cli.parse]. rewrite Ef1, Ef2, Eh1, Eh2. cbn [orb].
    destruct (String.eqb arg "--no-backup") eqn:E1;
      [apply String.eqb_eq in E1 as ->|].
    { cbn. rewrite IH by done. f_equal. unfold options_of.
      rewrite !given_cons, positional_cons. cbn. close_options o. }
    destruct (String.eqb arg "-n") eqn:E2; [apply String.eqb_eq in E2 as ->|].
    { cbn. rewrite IH by done. f_equal. unfold options_of.
      rewrite !given_cons, positional_cons. cbn. close_options o. }
    destruct (String.eqb arg "--group-by-domain") eqn:E3;
      [apply String.eqb_eq in E3 as ->|].
    { cbn. rewrite IH by done. f_equal. unfold options_of.
      rewrite !given_cons, positional_cons. cbn. close_options o. }
    destruct (String.eqb arg "-g") eqn:E4; [apply String.eqb_eq in E4 as ->|].
    { cbn. rewrite IH by done. f_equal. unfold options_of.
      rewrite !given_cons, positional_cons. cbn. close_options o. }
    destruct (String.eqb arg "--no-stats") eqn:E5;
      [apply String.eqb_eq in E5 as ->|].
    { cbn. rewrite IH by done. f_equal. unfold options_of.
      rewrite !given_cons, positional_cons. cbn. close_options o. }
    destruct (String.eqb arg "-s") eqn:E6; [apply String.eqb_eq in E6 as ->|].
    { cbn. rewrite IH by done. f_equal. unfold options_of.
      rewrite !given_cons, positional_cons. cbn. close_options o. }
    destruct (String.eqb arg "--stats-only") eqn:E7;
      [apply String.eqb_eq in E7 as ->|].
    { cbn. rewrite IH by done. f_equal. unfold options_of.
      rewrite !given_cons, positional_cons. cbn. close_options o. }
    cbn [orb]. destruct (startsWith arg "-") eqn:Ehyphen; cbn [negb].
    all: rewrite IH by done; f_equal; unfold options_of.
    all: rewrite !given_cons, positional_cons, Ehyphen.
    all: rewrite E1, E2, E3, E4, E5, E6, E7; cbn [negb orb].
    + close_options o.
    + rewrite last_cons. close_options o.
Qed.

Lemma parse_flags args o :
  given "--file" args = false → given "-f" args = false →
  given "--help" args = false → given "-h" args = false →
  Cli.parse args o = Cli.Options (options_of args o).
Proof.
  intros. rewrite <- (app_nil_r args) at 1. by rewrite parse_app.
Qed.

Lemma options_of_defaults args : options_of args Cli.defaults = options_given args.
Proof.
  unfold options_of, options_given, path_of. cbn.
  by destruct (last (positional args)).
Qed.

Lemma parseArgs_given args :
  "--file" ∉ args → "-f" ∉ args → "--help" ∉ args → "-h" ∉ args →
  Cli.parseArgs args = Cli.Options (options_given args).
Proof.
  intros ?%not_given ?%not_given ?%not_given ?%not_given.
  unfold Cli.parseArgs. rewrite parse_flags by done.
  by rewrite options_of_defaults.
Qed.

(** The loop stops with the help only at a help flag. *)
Lemma parse_Help args o :
  Cli.parse args o = Cli.Help → "--help" ∈ args ∨ "-h" ∈ args.
Proof.
  remember (length args) as n eqn:Hn. revert args o Hn.
  induction n as [n IH] using lt_wf_ind. intros [|arg rest] o Hn; [done|].
  cbn in Hn. cbn [Cli.parse].
  assert (∀ o', Cli.parse rest o' = Cli.Help →
                "--help" ∈ arg :: rest ∨ "-h" ∈ arg :: rest) as Hrest.
  { intros o' H. destruct (IH (length rest) ltac:(lia) rest o' eq_refl H);
      [left|right]; by apply list_elem_of_further. }
  destruct (String.eqb arg "--file" || String.eqb arg "-f").
  { destruct rest as [|path rest']; [done|]. cbn in Hn. intros H.
    destruct (IH (length rest') ltac:(lia) rest' _ eq_refl H);
      [left|right]; by do 2 apply list_elem_of_further. }
  repeat match goal with
         | |- (if ?b then _ else _) = _ → _ =>
             destruct b eqn:?; [by apply Hrest|]
         end.
  destruct (String.eqb arg "--help") eqn:E1.
  { apply String.eqb_eq in E1 as ->. intros _. left. apply list_elem_of_here. }
  destruct (String.eqb arg "-h") eqn:E2.
  { apply String.eqb_eq in E2 as ->. intros _. right. apply list_elem_of_here. }
  cbn [orb]. destruct (negb _); apply Hrest.
Qed.

(** Without [--file] and [-f] a help flag stops the loop. *)
Lemma parse_help args o :
  "--file" ∉ args → "-f" ∉ args → "--help" ∈ args ∨ "-h" ∈ args →
  Cli.parse args o = Cli.Help.
Proof.
  revert o. induction args as [|arg rest IH]; intros o Hf1 Hf2 Hh.
  - destruct Hh as [Hh|Hh]; by apply elem_of_nil in Hh.
  - apply not_elem_of_cons in Hf1 as [Ef1 Hf1], Hf2 as [Ef2 Hf2].
    apply String.eqb_neq in Ef1, Ef2.
    rewrite String.eqb_sym in Ef1. rewrite String.eqb_sym in Ef2.
    cbn [Cli.parse]. rewrite Ef1, Ef2. cbn [orb].
    destruct (String.eqb arg "--help") eqn:E1;
      [by apply String.eqb_eq in E1 as ->|].
    destruct (String.eqb arg "-h") eqn:E2;
      [by apply String.eqb_eq in E2 as ->|].
    apply String.eqb_neq in E1, E2.
    assert ("--help" ∈ rest ∨ "-h" ∈ rest) as Hrest.
    { destruct Hh as [Hh|Hh]; apply elem_of_cons in Hh as [?|?];
        [congruence|by left|congruence|by right]. }
    repeat match goal with
           | |- (if ?b then _ else _) = _ => destruct b; [by apply IH|]
           end.
    cbn [orb]. destruct (negb _); by apply IH.
Qed.

End arguments.


(** X13: the options of a command line.  Without [--file], [-f], [--help]
    and [-h] the path is the last argument that does not start with a
    hyphen, [README.md] when there is none; each option is switched exactly
    when one of its two flags is among the arguments; and the order of the
    arguments matters only through the last path. *)
Theorem parseArgs_flags args :
  "--file" ∉ args → "-f" ∉ args → "--help" ∉ args → "-h" ∉ args →
  Cli.parseArgs args
  = Cli.Options
      {| Cli.filePath := Some (default "README.md" (last (positional args)));
         Cli.createBackup := negb (given "--no-backup" args || given "-n" args);
         Cli.groupByDomain := given "--group-by-domain" args || given "-g" args;
         Cli.showStats := negb (given "--no-stats" args || given "-s" args);
         Cli.statsOnly := given "--stats-only" args |}
  ∧ ∀ args', args' ≡ₚ args →
      last (positional args') = last (positional args) →
      Cli.parseArgs args' = Cli.parseArgs args.
Proof.
  intros Hf1 Hf2 Hh1 Hh2. split; [by apply parseArgs_given|].
  intros args' Hp Hlast.
  rewrite !parseArgs_given by (by rewrite ?Hp).
  unfold options_given, path_of, given. rewrite Hlast.
  by rewrite !(bool_decide_ext (_ ∈ args') (_ ∈ args)) by (by rewrite Hp).
Qed.

Lemma parseArgs_flags_witness :
  ("--file" ∉ ["LINKS.md"; "-g"; "-n"]) ∧ ("-f" ∉ ["LINKS.md"; "-g"; "-n"])
  ∧ ("--help" ∉ ["LINKS.md"; "-g"; "-n"]) ∧ ("-h" ∉ ["LINKS.md"; "-g"; "-n"])
  ∧ Cli.parseArgs ["LINKS.md"; "-g"; "-n"]
    = Cli.Options {| Cli.filePath := Some "LINKS.md"; Cli.createBackup := false;
                     Cli.groupByDomain := true; Cli.showStats := true;
                     Cli.statsOnly := false |}.
Proof.
  assert ("--file" ∉ ["LINKS.md"; "-g"; "-n"]) as H1
    by (apply not_given; reflexivity).
  assert ("-f" ∉ ["LINKS.md"; "-g"; "-n"]) as H2
    by (apply not_given; reflexivity).
  assert ("--help" ∉ ["LINKS.md"; "-g"; "-n"]) as H3
    by (apply not_given; reflexivity).
  assert ("-h" ∉ ["LINKS.md"; "-g"; "-n"]) as H4
    by (apply not_given; reflexivity).
  split_and!; [done..|].
  destruct (parseArgs_flags ["LINKS.md"; "-g"; "-n"] H1 H2 H3 H4) as [H _].
  exact H.
Defined.

(** X14: the help.  The loop of [parseArgs] ends the process with the help
    only when [--help] or [-h] is among the arguments; and when neither
    [--file] nor [-f] is there to take it as a path, a help flag always
    does: the script prints the help text, exits with 0 and looks at no
    file, whatever else is asked. *)
Theorem help_requested localeCompare URL_hostname now args w :
  (Cli.parseArgs args = Cli.Help → "--help" ∈ args ∨ "-h" ∈ args)
  ∧ ("--file" ∉ args → "-f" ∉ args → "--help" ∈ args ∨ "-h" ∈ args →
     Cli.parseArgs args = Cli.Help
     ∧ main localeCompare URL_hostname now args w
       = {| world := console_log [Cli.helpText] w; stderr := [];
            status := Exit 0 |}).
Proof.
  split; [apply parse_Help|]. intros Hf1 Hf2 Hh.
  assert (Cli.parseArgs args = Cli.Help) as Hparse by (by apply parse_help).
  split; [done|]. unfold main. by rewrite Hparse.
Qed.

Lemma help_requested_witness :
  main codeunit_compare plain_hostname 0 ["missing.md"; "--stats-only"; "-h"]
       {| files := ∅; console := [] |}
  = {| world := {| files := ∅; console := [Cli.helpText] |}; stderr := [];
       status := Exit 0 |}.
Proof.
  destruct (help_requested codeunit_compare plain_hostname 0
              ["missing.md"; "--stats-only"; "-h"]
              {| files := ∅; console := [] |}) as [_ H].
  destruct H as [_ H].
  - apply not_given; reflexivity.
  - apply not_given; reflexivity.
  - right. apply is_given; reflexivity.
  - exact H.
Defined.

(** X15: a file flag without a path.  When [--file] or [-f] is the last
    argument, after arguments without file and help flags, the path is
    [undefined]: the script reports that the file [undefined] does not
    exist, exits with 1 and changes nothing. *)
Theorem file_flag_without_path localeCompare URL_hostname now args flag w :
  flag = "--file" ∨ flag = "-f" →
  "--file" ∉ args → "-f" ∉ args → "--help" ∉ args → "-h" ∉ args →
  (∃ o, Cli.parseArgs (args ++ [flag]) = Cli.Options o ∧ Cli.filePath o = None)
  ∧ main localeCompare URL_hostname now (args ++ [flag]) w
    = {| world := w; stderr := [ "Error: File undefined does not exist." ];
         status := Exit 1 |}.
Proof.
  intros Hflag ?%not_given ?%not_given ?%not_given ?%not_given.
  assert (Cli.parseArgs (args ++ [flag])
          = Cli.Options (Cli.set_filePath None (options_of args Cli.defaults)))
    as Hparse.
  { unfold Cli.parseArgs. rewrite parse_app by done.
    by destruct Hflag as [->| ->]. }
  split; [by eexists|]. unfold main. by rewrite Hparse.
Qed.

Lemma file_flag_without_path_witness :
  main codeunit_compare plain_hostname 0 ["-g"; "-f"]
       {| files := {[ "README.md" := scenario1 ]}; console := [] |}
  = {| world := {| files := {[ "README.md" := scenario1 ]}; console := [] |};
       stderr := [ "Error: File undefined does not exist." ];
       status := Exit 1 |}.
Proof.
  destruct (file_flag_without_path codeunit_compare plain_hostname 0 ["-g"] "-f"
              {| files := {[ "README.md" := scenario1 ]}; console := [] |})
    as [_ H].
  - by right.
  - apply not_given; reflexivity.
  - apply not_given; reflexivity.
  - apply not_given; reflexivity.
  - apply not_given; reflexivity.
  - exact H.
Defined.

(** X16: a file that does not exist.  For arguments without file and help
    flags, when there is no file at the path they name, the script writes
    one line to the error stream that names the path and exits with 1; it
    creates no file and prints nothing else. *)
Theorem main_missing_file localeCompare URL_hostname now args w :
  "--file" ∉ args → "-f" ∉ args → "--help" ∉ args → "-h" ∉ args →
  files w !! path_of args = None →
  main localeCompare URL_hostname now args w
  = {| world := w;
       stderr := [ "Error: File " +:+ path_of args +:+ " does not exist." ];
       status := Exit 1 |}.
Proof.
  intros Hf1 Hf2 Hh1 Hh2 Hnone. unfold main.
  rewrite parseArgs_given by done. cbn. unfold existsSync.
  rewrite Hnone. by rewrite bool_decide_eq_false_2 by (by intros [? ?]).
Qed.

Lemma main_missing_file_witness :
  main codeunit_compare plain_hostname 0 ["-n"; "LINKS.md"]
       {| files := {[ "README.md" := scenario1 ]}; console := [] |}
  = {| world := {| files := {[ "README.md" := scenario1 ]}; console := [] |};
       stderr := [ "Error: File LINKS.md does not exist." ];
       status := Exit 1 |}.
Proof.
  apply (main_missing_file codeunit_compare plain_hostname 0 ["-n"; "LINKS.md"]
           {| files := {[ "README.md" := scenario1 ]}; console := [] |}).
  - apply not_given; reflexivity.
  - apply not_given; reflexivity.
  - apply not_given; reflexivity.
  - apply not_given; reflexivity.
  - reflexivity.
Defined.

(** X17: statistics only.  For arguments without file and help flags that
    have [--stats-only], on an existing file the script exits with 0,
    writes no file, makes no backup and only adds to the console, whatever
    the flags for grouping, backup and statistics; and when no host of a
    unique URL and no top-level domain of one is a name that objects
    inherit, what it adds is the report of the statistics of the file. *)
Theorem main_stats_only localeCompare URL_hostname now args w content :
  "--file" ∉ args → "-f" ∉ args → "--help" ∉ args → "-h" ∉ args →
  "--stats-only" ∈ args →
  files w !! path_of args = Some content →
  let m := main localeCompare URL_hostname now args w in
  files (world m) = files w ∧ stderr m = [] ∧ status m = Exit 0
  ∧ console w `prefix_of` console (world m)
  ∧ (Forall (λ h, JsObject.inherited (strip_www h) = false
                  ∧ JsObject.inherited (tld_of (strip_www h)) = false)
            (omap URL_hostname (counted content).2) →
     console (world m)
     = console w
       ++ printLinkStatistics (collectStatistics URL_hostname content)).
Proof.
  intros Hf1 Hf2 Hh1 Hh2 Hs Hfile m. subst m. unfold main.
  rewrite parseArgs_given by done. cbn. unfold existsSync, given.
  rewrite Hfile. rewrite bool_decide_eq_true_2 by done.
  rewrite bool_decide_eq_true_2 by done. cbn.
  split_and!; [done|done|done|by apply prefix_app_r|done].
Qed.

Lemma main_stats_only_witness :
  files (world (main codeunit_compare plain_hostname 0
                     ["--stats-only"; "--no-stats"]
                     {| files := {[ "README.md" := scenario1 ]}; console := [] |}))
  = {[ "README.md" := scenario1 ]}
  ∧ console (world (main codeunit_compare plain_hostname 0
                         ["--stats-only"; "--no-stats"]
                         {| files := {[ "README.md" := scenario1 ]};
                            console := [] |}))
    = printLinkStatistics (collectStatistics plain_hostname scenario1).
Proof.
  destruct (main_stats_only codeunit_compare plain_hostname 0
              ["--stats-only"; "--no-stats"]
              {| files := {[ "README.md" := scenario1 ]}; console := [] |}
              scenario1) as (Hfiles & _ & _ & _ & Hconsole).
  - apply not_given; reflexivity.
  - apply not_given; reflexivity.
  - apply not_given; reflexivity.
  - apply not_given; reflexivity.
  - apply is_given; reflexivity.
  - reflexivity.
  - split; [exact Hfiles|]. apply Hconsole.
    change (omap plain_hostname (counted scenario1).2) with ["b.com"; "a.com"].
    repeat constructor.
Defined.


(** The run on parsed options, for a file that exists. *)
Lemma main_sortLinks localeCompare URL_hostname now args w o path :
  Cli.parseArgs args = Cli.Options o → Cli.filePath o = Some path →
  is_Some (files w !! path) → Cli.statsOnly o = false →
  world (main localeCompare URL_hostname now args w)
  = (sortLinks localeCompare URL_hostname now path
       {| createBackup := Cli.createBackup o;
          groupByDomain := Cli.groupByDomain o;
          showStats := Cli.showStats o |} w).1
  ∧ status (main localeCompare URL_hostname now args w)
    = match (sortLinks localeCompare URL_hostname now path
               {| createBackup := Cli.createBackup o;
                  groupByDomain := Cli.groupByDomain o;
                  showStats := Cli.showStats o |} w).2 with
      | Return _ => Exit 0
      | Throw error => Uncaught error
      end.
Proof.
  intros Hparse Hpath Hfile Hstats. unfold main, existsSync.
  rewrite Hparse, Hpath, Hstats. by rewrite bool_decide_eq_true_2 by done.
Qed.

(** X18: a sorting run from the command line.  For arguments without file
    and help flags and without [--stats-only], on an existing file: the file
    holds the new text, grouped when [--group-by-domain] or [-g] is given,
    and the script exits with 0, or grouping throws and the file is as it
    was; unless [--no-backup] or [-n] is given the backup holds the old
    text; and no other file changes. *)
Theorem main_sorts localeCompare URL_hostname now args w content :
  "--file" ∉ args → "-f" ∉ args → "--help" ∉ args → "-h" ∉ args →
  "--stats-only" ∉ args →
  files w !! path_of args = Some content →
  let m := main localeCompare URL_hostname now args w in
  let grouped := given "--group-by-domain" args || given "-g" args in
  let backup := negb (given "--no-backup" args || given "-n" args) in
  match newContent localeCompare URL_hostname grouped content with
  | Some text =>
      files (world m) !! path_of args = Some text ∧ status m = Exit 0
  | None =>
      files (world m) !! path_of args = Some content
      ∧ status m = Uncaught "TypeError"
  end
  ∧ (backup = true →
     files (world m) !! backup_of (path_of args) now = Some content)
  ∧ (∀ p, p ≠ path_of args →
          backup = false ∨ p ≠ backup_of (path_of args) now →
          files (world m) !! p = files w !! p).
Proof.
  intros Hf1 Hf2 Hh1 Hh2 Hs%not_given Hfile m grouped backup.
  destruct (main_sortLinks localeCompare URL_hostname now args w
              (options_given args) (path_of args))
    as [Hworld Hstatus]; [by apply parseArgs_given|done|done|done|].
  cbn in Hworld, Hstatus. fold m grouped backup in Hworld, Hstatus.
  rewrite Hworld, Hstatus. split_and!.
  - pose proof (sortLinks_file localeCompare URL_hostname now (path_of args)
                  {| createBackup := backup; groupByDomain := grouped;
                     showStats := negb (given "--no-stats" args
                                        || given "-s" args) |}
                  w content Hfile) as H.
    cbn in H. destruct (newContent _ _ _ _); destruct H as [H1 H2];
      by rewrite H2.
  - intros Hb. by apply sortLinks_backup.
  - intros p Hp Hb. by apply sortLinks_other.
Qed.

Lemma main_sorts_witness :
  files (world (main codeunit_compare plain_hostname 1700000000000 ["-n"]
                     {| files := {[ "README.md" := scenario1 ]}; console := [] |}))
    !! "README.md"
  = Some ("# Links" +:+ LF +:+ "* https://a.com/y" +:+ LF +:+ "* https://b.com/x").
Proof.
  assert (files {| files := {[ "README.md" := scenario1 ]}; console := [] |}
            !! path_of ["-n"] = Some scenario1) as Hfile by reflexivity.
  destruct (main_sorts codeunit_compare plain_hostname 1700000000000 ["-n"]
              {| files := {[ "README.md" := scenario1 ]}; console := [] |}
              scenario1) as (H & _); [apply not_given; reflexivity..|exact Hfile|].
  assert (newContent codeunit_compare plain_hostname
            (given "--group-by-domain" ["-n"] || given "-g" ["-n"]) scenario1
          = Some ("# Links" +:+ LF +:+ "* https://a.com/y" +:+ LF
                  +:+ "* https://b.com/x")) as Hnew by reflexivity.
  rewrite Hnew in H. by destruct H as [H _].
Defined.




(** ** The top-level domain of a host *)

Lemma after_last_dot_None s : after_last_dot s = None ↔ no_dot s = true.
Proof.
  unfold no_dot. induction s as [|c s IH]; [done|]. cbn.
  destruct (after_last_dot s) as [r|].
  - split; [done|]. intros [_ H]%andb_true_iff. by apply IH in H.
  - destruct IH as [IH _]. rewrite IH by done. rewrite andb_true_r.
    by destruct (Ascii.eqb c ".").
Qed.

Lemma after_last_dot_Some s r :
  after_last_dot s = Some r →
  no_dot r = true ∧ ∃ pre, s = pre +:+ "." +:+ r.
Proof.
  revert r. induction s as [|c s IH]; intros r; [done|]. cbn.
  destruct (after_last_dot s) as [r'|] eqn:E.
  - intros [= <-]. destruct (IH r' eq_refl) as [Hr [pre ->]].
    split; [done|]. by exists (String c pre).
  - destruct (Ascii.eqb_spec c ".") as [->|]; [|done]. intros [= <-].
    split; [by apply after_last_dot_None|]. by exists "".
Qed.

Lemma after_last_dot_app pre t :
  no_dot t = true → after_last_dot (pre +:+ "." +:+ t) = Some t.
Proof.
  intros Ht%after_last_dot_None. induction pre as [|c pre IH].
  - rewrite app_empty, app_cons, app_empty. cbn. by rewrite Ht.
  - rewrite app_cons. cbn. by rewrite IH.
Qed.

(** X20: the top-level domain of a host.  It is the text after the last dot
    of the host when there is a dot and text after it, and [unknown] when
    the host has no dot or ends with one; so it is never empty and never
    has a dot itself. *)
Theorem tld_of_spec domain :
  tld_of domain ≠ "" ∧ no_dot (tld_of domain) = true
  ∧ (∀ pre t, domain = pre +:+ "." +:+ t → t ≠ "" → no_dot t = true →
       tld_of domain = t)
  ∧ (no_dot domain = true → tld_of domain = "unknown")
  ∧ (∀ pre, domain = pre +:+ "." → tld_of domain = "unknown").
Proof.
  unfold tld_of. split_and!.
  - destruct (after_last_dot domain) as [[|c r]|]; done.
  - destruct (after_last_dot domain) as [[|c r]|] eqn:E; [done| |done].
    by apply after_last_dot_Some in E as [? _].
  - intros pre t -> Hne Ht. rewrite after_last_dot_app by done.
    by destruct t.
  - intros H%after_last_dot_None. by rewrite H.
  - intros pre ->.
    by rewrite (after_last_dot_app pre "" eq_refl
                : after_last_dot (pre +:+ ".") = Some "").
Qed.

(** ** The grouped sort run again *)

Section before_facts.

Context {A : Type}.
Implicit Types (l : list A) (a b x : A).

Lemma before_elem l a b : before l a b → a ∈ l ∧ b ∈ l.
Proof.
  intros (i & j & Hi & Hj & _). split; by eapply list_elem_of_lookup_2.
Qed.

Lemma before_cons x l a b :
  before (x :: l) a b ↔ (a = x ∧ b ∈ l) ∨ before l a b.
Proof.
  split.
  - intros (i & j & Hi & Hj & Hij). destruct j as [|j]; [lia|]. cbn in Hj.
    destruct i as [|i].
    + left. cbn in Hi. injection Hi as ->.
      split; [done|]. by eapply list_elem_of_lookup_2.
    + right. exists i, j. split_and!; [done|done|lia].
  - intros [[-> Hb]|(i & j & Hi & Hj & Hij)].
    + apply list_elem_of_lookup_1 in Hb as [j Hj]. exists 0, (S j).
      split_and!; [done|done|lia].
    + exists (S i), (S j). split_and!; [done|done|lia].
Qed.

Lemma before_nil a b : ¬ before [] a b.
Proof. by intros (i & j & Hi & _). Qed.

Lemma before_app l1 l2 a b :
  before (l1 ++ l2) a b
  ↔ before l1 a b ∨ (a ∈ l1 ∧ b ∈ l2) ∨ before l2 a b.
Proof.
  induction l1 as [|x l1 IH]; cbn [app].
  - split; [by auto|]. intros [H|[[H _]|H]]; [|by apply elem_of_nil in H|done].
    by apply before_nil in H.
  - rewrite !before_cons, IH, elem_of_app, elem_of_cons. tauto.
Qed.

Lemma before_asym l a b : NoDup l → before l a b → before l b a → False.
Proof.
  intros Hnd (i & j & Hi & Hj & Hij) (j' & i' & Hj' & Hi' & Hji).
  assert (i = i') by (by eapply NoDup_lookup).
  assert (j = j') by (by eapply NoDup_lookup). lia.
Qed.

Lemma before_irrefl l a : NoDup l → ¬ before l a a.
Proof. intros Hnd H. by eapply before_asym. Qed.

Lemma before_total l a b :
  a ∈ l → b ∈ l → a ≠ b → before l a b ∨ before l b a.
Proof.
  intros [i Hi]%list_elem_of_lookup_1 [j Hj]%list_elem_of_lookup_1 Hne.
  destruct (Nat.lt_trichotomy i j) as [?|[->|?]].
  - left. by exists i, j.
  - congruence.
  - right. by exists j, i.
Qed.

Lemma StronglySorted_before (R : relation A) l :
  StronglySorted R l ↔ ∀ a b, before l a b → R a b.
Proof.
  induction l as [|x l IH].
  - split; [|constructor]. intros _ a b H. by apply before_nil in H.
  - rewrite StronglySorted_cons, IH, Forall_forall. split.
    + intros [Hx Hl] a b [[-> Hb]|H]%before_cons; [by apply Hx|by apply Hl].
    + intros H. split.
      * intros b Hb. apply H, before_cons. by left.
      * intros a b Hab. apply H, before_cons. by right.
Qed.

Lemma before_filter (P : A → Prop) `{∀ x, Decision (P x)} l a b :
  before (filter P l) a b ↔ P a ∧ P b ∧ before l a b.
Proof.
  induction l as [|x l IH].
  - split; [by intros ?%before_nil|by intros (_ & _ & ?%before_nil)].
  - rewrite filter_cons. destruct (decide (P x)) as [Hx|Hx].
    + rewrite !before_cons, IH, list_elem_of_filter. split.
      * intros [[-> [Hb Hbl]]|(Ha & Hb & Hab)].
        -- split_and!; [done|done|by left].
        -- split_and!; [done|done|by right].
      * intros (Ha & Hb & [[-> Hbl]|Hab]); [by left|by right].
    + rewrite before_cons, IH. split.
      * intros (Ha & Hb & Hab). split_and!; [done|done|by right].
      * by intros (Ha & Hb & [[-> _]|Hab]).
Qed.

(** Two arrangements of the same distinct elements are the same when one
    keeps the order of the other. *)
Lemma before_unique l1 l2 :
  NoDup l2 → l1 ≡ₚ l2 → (∀ a b, before l1 a b → before l2 a b) → l1 = l2.
Proof.
  intros Hnd Hp H.
  apply (StronglySorted_unique_strong (before l2)); [| | |done].
  - intros a b _ _ Hab Hba. by destruct (before_asym l2 a b).
  - by apply StronglySorted_before.
  - by apply StronglySorted_before.
Qed.

End before_facts.

Lemma before_fmap {A B} (f : A → B) (l : list A) x y :
  before (f <$> l) x y ↔ ∃ a b, x = f a ∧ y = f b ∧ before l a b.
Proof.
  split.
  - intros (i & j & (a & -> & Hi)%list_lookup_fmap_Some
              & (b & -> & Hj)%list_lookup_fmap_Some & Hij).
    exists a, b. split_and!; [done|done|]. by exists i, j.
  - intros (a & b & -> & -> & i & j & Hi & Hj & Hij). exists i, j.
    split_and!; [by apply list_lookup_fmap_Some_2..|done].
Qed.

(** *** The sort keeps equal elements in their order *)

Section stable.

Context {A : Type} (compare : A → A → Z).
Implicit Types (l : list A) (a b x : A).

Lemma insert_sorted_before x l a b :
  before (insert_sorted compare x l) a b →
  before l a b ∨ (a = x ∧ b ∈ l) ∨ (b = x ∧ a ∈ l ∧ (0 < compare x a)%Z).
Proof.
  induction l as [|y l IH]; cbn.
  - intros [[_ []%elem_of_nil]|[]%before_nil]%before_cons.
  - destruct (0 <? compare x y)%Z eqn:E.
    + apply Z.ltb_lt in E.
      intros [[-> Hb]|H]%before_cons.
      * rewrite insert_sorted_perm in Hb.
        apply elem_of_cons in Hb as [->|Hb].
        -- right. right. split_and!; [done|by left|done].
        -- left. apply before_cons. by left.
      * destruct (IH H) as [?|[[-> ?]|(-> & ? & ?)]].
        -- left. apply before_cons. by right.
        -- right. left. split; [done|by right].
        -- right. right. split_and!; [done|by right|done].
    + intros [[-> Hb]|H]%before_cons; [right; by left|by left].
Qed.

Lemma sort_before_inv l a b :
  Consistent compare →
  before (sort compare l) a b →
  (compare a b ≤ 0)%Z ∧ ((compare b a ≤ 0)%Z → before l a b).
Proof.
  intros Hc Hab. split.
  - by apply (StronglySorted_before (precedes compare) (sort compare l));
      [apply sort_sorted|].
  - revert Hab. induction l as [|x l IH]; cbn; [by intros ?%before_nil|].
    intros [H|[[-> Hb]|(-> & Ha & Hlt)]]%insert_sorted_before Hba.
    + apply before_cons. right. by apply IH.
    + apply before_cons. left. split; [done|]. by apply elem_of_sort in Hb.
    + lia.
Qed.

Lemma sort_before l a b :
  Consistent compare → NoDup l →
  before l a b → (compare a b ≤ 0)%Z → before (sort compare l) a b.
Proof.
  intros Hc Hnd Hab Hle.
  destruct (before_elem l a b Hab) as [Ha Hb].
  destruct (before_total (sort compare l) a b) as [?|Hba]; [..|done|].
  - by apply elem_of_sort.
  - by apply elem_of_sort.
  - intros ->. by apply (before_irrefl l b).
  - apply sort_before_inv in Hba as [_ Hba]; [|done].
    destruct (before_asym l a b); auto.
Qed.

Lemma sort_strict l a b :
  Consistent compare → a ∈ l → b ∈ l →
  (compare a b < 0)%Z → before (sort compare l) a b.
Proof.
  intros Hc Ha Hb Hlt.
  destruct (before_total (sort compare l) a b) as [?|Hba]; [..|done|].
  - by apply elem_of_sort.
  - by apply elem_of_sort.
  - intros ->. rewrite (consistent_refl _ Hc) in Hlt. lia.
  - apply sort_before_inv in Hba as [Hle _]; [|done].
    apply (consistent_swap _ Hc) in Hlt. lia.
Qed.

End stable.

(** *** The order of [Object.keys] *)

Section key_order.

Context {V : Type}.
Implicit Types (G : JsObject.object V) (d : string).

Lemma index_compare_consistent :
  Consistent (λ a b : string * V,
                Z.of_N (JsObject.index_of a) - Z.of_N (JsObject.index_of b))%Z.
Proof. split; intros; lia. Qed.

Lemma keys_before_first G d1 d2 :
  before (JsObject.keys G) d1 d2 → keys_first d1 d2.
Proof.
  unfold JsObject.keys, JsObject.entries, keys_first.
  rewrite fmap_app, before_app. intros [H|[[H1 H2]|H]].
  - apply before_fmap in H as (e1 & e2 & -> & -> & H).
    destruct (before_elem _ _ _ H) as [He1 He2].
    apply elem_of_sort, list_elem_of_filter in He1 as [[n1 Hn1] _].
    apply elem_of_sort, list_elem_of_filter in He2 as [[n2 Hn2] _].
    apply sort_before_inv in H as [Hle _];
      [|apply index_compare_consistent].
    unfold JsObject.index_of in Hle. rewrite Hn1, Hn2 in Hle |- *.
    cbn in Hle. lia.
  - apply list_elem_of_fmap in H1 as (e1 & -> & He1).
    apply list_elem_of_fmap in H2 as (e2 & -> & He2).
    apply elem_of_sort, list_elem_of_filter in He1 as [[n1 ->] _].
    apply list_elem_of_filter in He2 as [He2 _].
    destruct (JsObject.array_index e2.1); [|done]. by destruct He2.
  - apply before_fmap in H as (e1 & e2 & -> & -> & H).
    apply before_filter in H as (H1 & H2 & _).
    destruct (JsObject.array_index e1.1); [by destruct H1|].
    destruct (JsObject.array_index e2.1); [|done]. by destruct H2.
Qed.

Lemma keys_before_second G d1 d2 :
  NoDup G.*1 → before G.*1 d1 d2 → keys_first d1 d2 →
  before (JsObject.keys G) d1 d2.
Proof.
  intros Hnd (e1 & e2 & -> & -> & H)%before_fmap Hk.
  apply NoDup_fmap_1 in Hnd.
  unfold JsObject.keys, JsObject.entries. rewrite fmap_app, before_app.
  unfold keys_first in Hk.
  destruct (JsObject.array_index e1.1) as [n1|] eqn:E1,
           (JsObject.array_index e2.1) as [n2|] eqn:E2; [| | done |].
  - left. apply before_fmap. exists e1, e2. split_and!; [done|done|].
    apply sort_before.
    + apply index_compare_consistent.
    + by apply NoDup_filter.
    + apply before_filter. rewrite E1, E2. by split_and!.
    + unfold JsObject.index_of. rewrite E1, E2. cbn. lia.
  - destruct (before_elem _ _ _ H) as [He1 He2].
    right. left. split; apply list_elem_of_fmap.
    + exists e1. split; [done|]. rewrite elem_of_sort.
      apply list_elem_of_filter. by rewrite E1.
    + exists e2. split; [done|]. apply list_elem_of_filter. rewrite E2.
      split; [by intros [? ?]|done].
  - right. right. apply before_fmap. exists e1, e2. split_and!; [done|done|].
    apply before_filter. rewrite E1, E2.
    split_and!; [by intros [? ?]|by intros [? ?]|done].
Qed.

End key_order.

Lemma filter_all {A} (P : A → Prop) `{∀ x, Decision (P x)} (l : list A) :
  Forall P l → filter P l = l.
Proof.
  induction 1 as [|x l Hx _ IH]; [done|]. by rewrite filter_cons_True, IH.
Qed.

Lemma filter_none {A} (P : A → Prop) `{∀ x, Decision (P x)} (l : list A) :
  Forall (λ x, ¬ P x) l → filter P l = [].
Proof.
  induction 1 as [|x l Hx _ IH]; [done|]. by rewrite filter_cons_False.
Qed.

(** *** The groups of a grouped text *)

Section regroup.

Context (localeCompare : string → string → Z).
Context (URL_hostname : string → option string).
Hypothesis consistent : Consistent localeCompare.

Implicit Types (cs : list (string * list string)) (c L : list string).
Implicit Types (d u A : string) (m : gmap string string).

(** [domainGroups] has its keys in the order in which the URLs bring
    them. *)
Lemma group_links_keys us m G :
  group_links URL_hostname us m = Some G →
  G.*1 = foldl Set_add [] (group_key URL_hostname <$> us).
Proof.
  unfold group_links. revert G.
  induction us as [|u us IH] using rev_ind; intros G.
  - by intros [= <-].
  - rewrite foldl_snoc, fmap_app, foldl_app. cbn [fmap list_fmap foldl].
    match goal with
    | |- context [foldl ?f (Some []) us] =>
        destruct (foldl f (Some []) us) as [G0|]
    end; [|done].
    cbn. rewrite <- (IH G0 eq_refl). unfold add_to_group, Set_add.
    destruct (JsObject.own G0 (group_key URL_hostname u)) as [group|] eqn:E.
    + intros [= <-].
      assert (group_key URL_hostname u ∈ G0.*1) as Hin
        by (apply own_is_Some; by rewrite E).
      rewrite set_keys, decide_True by done.
      by rewrite bool_decide_eq_true_2.
    + destruct (JsObject.inherited _); [done|]. intros [= <-].
      apply own_None in E.
      rewrite set_keys, decide_False by done.
      by rewrite bool_decide_eq_false_2.
Qed.

Lemma foldl_Set_add_same acc d (ks : list string) :
  ks ≠ [] → Forall (λ x, x = d) ks → foldl Set_add acc ks = Set_add acc d.
Proof.
  revert acc. induction ks as [|x ks IH]; intros acc Hne Hks; [done|].
  apply Forall_cons in Hks as [-> Hks]. cbn [foldl].
  destruct ks as [|y ks]; [done|]. rewrite IH by done.
  unfold Set_add at 1. rewrite bool_decide_eq_true_2; [done|].
  apply elem_of_Set_add. by right.
Qed.

Lemma first_keys cs acc :
  NoDup (acc ++ cs.*1) →
  (∀ d c, (d, c) ∈ cs →
     c ≠ [] ∧ Forall (λ A, line_group_key URL_hostname A = d) c) →
  foldl Set_add acc (line_group_key URL_hostname <$> concat cs.*2)
  = acc ++ cs.*1.
Proof.
  revert acc. induction cs as [|[d c] cs IH]; intros acc Hnd Hcs; cbn.
  - by rewrite app_nil_r.
  - destruct (Hcs d c) as [Hne Hc]; [by left|].
    assert (Set_add acc d = acc ++ [d]) as Hadd.
    { unfold Set_add. rewrite bool_decide_eq_false_2; [done|].
      apply NoDup_app in Hnd as (_ & Hnd & _). intros Hin.
      apply (Hnd d Hin). by left. }
    rewrite fmap_app, foldl_app.
    rewrite (foldl_Set_add_same acc d (line_group_key URL_hostname <$> c));
      [|by intros ?%fmap_nil_inv|by apply Forall_fmap].
    rewrite Hadd, IH; [by rewrite <- app_assoc|by rewrite <- app_assoc|].
    intros d' c' H. apply Hcs. by right.
Qed.

Lemma filter_chunk cs d c :
  NoDup cs.*1 →
  (∀ d c, (d, c) ∈ cs → Forall (λ A, line_group_key URL_hostname A = d) c) →
  (d, c) ∈ cs →
  filter (λ A, line_group_key URL_hostname A = d) (concat cs.*2) = c.
Proof.
  intros Hnd Hcs Hin.
  assert (∀ cs', (∀ d' c', (d', c') ∈ cs' →
                    Forall (λ A, line_group_key URL_hostname A = d') c') →
                 d ∉ cs'.*1 →
                 filter (λ A, line_group_key URL_hostname A = d)
                        (concat cs'.*2) = []) as Hnone.
  { induction cs' as [|[d0 c0] cs' IH]; intros H Hd; [done|]. cbn.
    apply not_elem_of_cons in Hd as [Hne Hd]. cbn in Hne.
    rewrite filter_app, IH; [|intros d' c' ?; apply H; by right|done].
    rewrite app_nil_r. apply filter_none.
    eapply Forall_impl; [apply (H d0 c0); by left|].
    intros A HA HA'. congruence. }
  induction cs as [|[d0 c0] cs IH]; [by apply elem_of_nil in Hin|].
  cbn in Hnd |- *. apply NoDup_cons in Hnd as [Hd0 Hnd]. rewrite filter_app.
  apply elem_of_cons in Hin as [[= -> ->]|Hin].
  - rewrite Hnone; [|intros d' c' ?; apply Hcs; by right|done].
    rewrite app_nil_r. apply filter_all, Hcs. by left.
  - assert (d ≠ d0) as Hne.
    { intros ->. apply Hd0. apply list_elem_of_fmap. by exists (d0, c). }
    rewrite IH; [|done|intros d' c' ?; apply Hcs; by right|done].
    rewrite filter_none; [done|].
    eapply Forall_impl; [apply (Hcs d0 c0); by left|].
    intros A HA HA'. congruence.
Qed.

Lemma lines_of_members m d L :
  (∀ l, l ∈ L → m !! url_of_line l = Some l) →
  line_of m <$> members URL_hostname d (url_of_line <$> L)
  = filter (λ A, line_group_key URL_hostname A = d) L.
Proof.
  unfold members, line_group_key.
  induction L as [|l L IH]; intros Hm; [done|]. cbn [fmap list_fmap].
  rewrite !filter_cons.
  rewrite <- IH by (intros l' ?; apply Hm; by right).
  destruct (decide (group_key URL_hostname (url_of_line l) = d)); [|done].
  cbn. unfold line_of at 1. rewrite Hm by (by left). done.
Qed.

Lemma map_chunks (f : string → list string) cs :
  (∀ d c, (d, c) ∈ cs → f d = c) → map f cs.*1 = cs.*2.
Proof.
  induction cs as [|[d c] cs IH]; intros H; [done|]. cbn.
  rewrite (H d c) by (by left). f_equal. apply IH.
  intros d' c' ?. apply H. by right.
Qed.

Lemma grouped_chunks_tail d c cs :
  grouped_chunks localeCompare URL_hostname ((d, c) :: cs) →
  grouped_chunks localeCompare URL_hostname cs.
Proof.
  intros (Hnd & Hcs & Hord). split_and!.
  - by apply NoDup_cons in Hnd as [_ ?].
  - intros d' c' ?. apply Hcs. by right.
  - intros d1 d2 H. apply Hord. cbn. apply before_cons. by right.
Qed.

Lemma grouped_chunks_head d c cs j :
  j < length c →
  grouped_chunks localeCompare URL_hostname ((d, c) :: cs) →
  grouped_chunks localeCompare URL_hostname ((d, drop j c) :: cs).
Proof.
  intros Hj (Hnd & Hcs & Hord). split_and!; [done| |done].
  intros d' c' [[= -> ->]|Hin]%elem_of_cons; [|apply Hcs; by right].
  destruct (Hcs d c) as (Hne & Hinh & Hkey & Hsorted); [by left|].
  split_and!; [|done|by apply Forall_drop|].
  - intros Hnil. apply (f_equal length) in Hnil.
    rewrite length_drop in Hnil. cbn in Hnil. lia.
  - rewrite <- (take_drop j c) in Hsorted.
    by apply StronglySorted_app_1_r in Hsorted.
Qed.

(** What is left of a grouped text after some lines is a grouped text. *)
Lemma chunks_drop cs j :
  grouped_chunks localeCompare URL_hostname cs →
  ∃ cs', grouped_chunks localeCompare URL_hostname cs'
         ∧ drop j (concat cs.*2) = concat cs'.*2.
Proof.
  revert j. induction cs as [|[d c] cs IH]; intros j Hcs.
  - exists []. split; [|by destruct j].
    split_and!; [constructor|by intros d c ?%elem_of_nil|].
    by intros d1 d2 ?%before_nil.
  - cbn. destruct (decide (j < length c)) as [Hj|Hj].
    + exists ((d, drop j c) :: cs). split; [by apply grouped_chunks_head|].
      cbn. apply drop_app_le. lia.
    + destruct (IH (j - length c)) as (cs' & Hcs' & Heq);
        [by eapply grouped_chunks_tail|].
      exists cs'. split; [done|]. rewrite drop_app_ge by lia. done.
Qed.

(** The grouped run on a grouped text of stored lines gives this text. *)
Lemma regroup cs :
  grouped_chunks localeCompare URL_hostname cs →
  Forall stored_line (concat cs.*2) →
  NoDup (url_of_line <$> concat cs.*2) →
  sortedLinks localeCompare URL_hostname true (extract (concat cs.*2))
  = Some (concat cs.*2).
Proof.
  intros (Hnd & Hcs & Hord) Hst Hurls.
  destruct (extract_stored _ Hst Hurls) as [Hraw Hmap].
  unfold sortedLinks. rewrite Hraw.
  destruct (group_links URL_hostname (url_of_line <$> concat cs.*2)
              (urlToLineMap (extract (concat cs.*2)))) as [G|] eqn:EG.
  2: { assert (is_Some (group_links URL_hostname (url_of_line <$> concat cs.*2)
                          (urlToLineMap (extract (concat cs.*2))))) as [? ?];
         [|congruence].
       apply group_links_is_Some. intros u (A & -> & HA)%list_elem_of_fmap.
       apply elem_of_concat in HA as (c & Hc & HA).
       apply list_elem_of_fmap in Hc as ([d c'] & -> & Hin).
       destruct (Hcs d c' Hin) as (_ & Hinh & Hkey & _).
       rewrite Forall_forall in Hkey. specialize (Hkey A HA).
       unfold line_group_key in Hkey. by rewrite Hkey. }
  cbn.
  pose proof (group_links_ok _ _ _ _ EG) as Hok.
  assert (G.*1 = cs.*1) as HG.
  { rewrite (group_links_keys _ _ _ EG), <- list_fmap_compose.
    apply (first_keys cs []); [done|].
    intros d c Hin. destruct (Hcs d c Hin) as (? & _ & ? & _). done. }
  assert (sort (compare_domains localeCompare) (JsObject.keys G) = cs.*1) as ->.
  { symmetry. apply before_unique.
    - by rewrite sort_perm, keys_perm, HG.
    - by rewrite sort_perm, keys_perm, HG.
    - intros d1 d2 H12. destruct (Hord d1 d2 H12) as [Hle Htie].
      destruct (before_elem _ _ _ H12) as [H1 H2].
      destruct (decide (compare_domains localeCompare d2 d1 ≤ 0)%Z) as [Hge|Hlt].
      + apply sort_before; [by apply compare_domains_consistent| | |done].
        * by rewrite keys_perm, HG.
        * apply keys_before_second; [by rewrite HG|by rewrite HG|by apply Htie].
      + apply sort_strict; [by apply compare_domains_consistent|..].
        * by rewrite keys_perm, HG.
        * by rewrite keys_perm, HG.
        * apply (consistent_swap _ (compare_domains_consistent _ consistent)).
          lia. }
  do 2 f_equal. apply map_chunks. intros d c Hin.
  rewrite (groups_ok_key _ _ _ _ _ Hok)
    by (rewrite HG; apply list_elem_of_fmap; by exists (d, c)).
  cbn [default]. rewrite lines_of_members by done.
  rewrite (filter_chunk cs d c); [|done| |done].
  - apply sort_id. by destruct (Hcs d c Hin) as (_ & _ & _ & ?).
  - intros d' c' Hin'. by destruct (Hcs d' c' Hin') as (_ & _ & ? & _).
Qed.

(** The grouped run writes a grouped text. *)
Lemma sortedLinks_chunks body out :
  sortedLinks localeCompare URL_hostname true (extract body) = Some out →
  ∃ cs, grouped_chunks localeCompare URL_hostname cs ∧ out = concat cs.*2.
Proof.
  intros (G & Hok & ->)%sortedLinks_grouped_eq.
  set (chunk := λ d, sort (compare_links localeCompare)
                       (line_of (urlToLineMap (extract body))
                          <$> members URL_hostname d (rawUrls (extract body)))).
  set (ds := sort (compare_domains localeCompare) (JsObject.keys G)).
  exists ((λ d, (d, chunk d)) <$> ds).
  assert (((λ d, (d, chunk d)) <$> ds).*1 = ds) as Hfst.
  { rewrite <- list_fmap_compose. apply list_fmap_id. }
  assert (((λ d, (d, chunk d)) <$> ds).*2 = map chunk ds) as Hsnd.
  { clear. induction ds as [|d ds IH]; [done|]. cbn. by rewrite <- IH. }
  split; [|by rewrite Hsnd].
  destruct Hok as (HndG & Hinh & Hown).
  unfold grouped_chunks. rewrite Hfst. split_and!.
  - unfold ds. by rewrite sort_perm, keys_perm.
  - intros d c (d' & [= -> ->] & Hd)%list_elem_of_fmap.
    unfold ds in Hd. rewrite elem_of_sort, keys_perm in Hd. split_and!.
    + intros Hnil. apply (f_equal length) in Hnil.
      unfold chunk in Hnil. rewrite length_sort, length_fmap in Hnil.
      cbn in Hnil. apply nil_length_inv in Hnil.
      pose proof (Hown d') as Hd'. rewrite decide_True in Hd' by done.
      by apply own_None in Hd'.
    + by apply Hinh.
    + apply Forall_forall. intros A (u & Hu & <- & ->)%chunk_elem.
      unfold line_group_key.
      by destruct (extract_lookup body u Hu) as (_ & _ & -> & _).
    + apply sort_sorted, compare_links_consistent, consistent.
  - intros d1 d2 H. unfold ds in H.
    apply sort_before_inv in H as [Hle Htie];
      [|by apply compare_domains_consistent].
    split; [done|]. intros Hge. by apply (keys_before_first G), Htie.
Qed.

Lemma sortedLinks_urls groupByDomain body out :
  sortedLinks localeCompare URL_hostname groupByDomain (extract body) = Some out →
  url_of_line <$> out ≡ₚ rawUrls (extract body).
Proof.
  intros Hout. rewrite (sortedLinks_Permutation _ _ _ _ _ Hout).
  rewrite <- list_fmap_compose.
  assert (url_of_line ∘ line_of (urlToLineMap (extract body))
            <$> rawUrls (extract body)
          = id <$> rawUrls (extract body)) as ->; [|by rewrite list_fmap_id].
  apply list_fmap_ext. intros i u Hu%list_elem_of_lookup_2. cbn.
  by destruct (extract_lookup _ u Hu) as (_ & _ & -> & _).
Qed.

(** The grouped run on any rest of what it has written gives this rest. *)
Lemma sortedLinks_grouped_again body out j :
  sortedLinks localeCompare URL_hostname true (extract body) = Some out →
  sortedLinks localeCompare URL_hostname true (extract (drop j out))
  = Some (drop j out).
Proof.
  intros Hout.
  destruct (sortedLinks_chunks body out Hout) as (cs & Hcs & Heq).
  destruct (chunks_drop cs j Hcs) as (cs' & Hcs' & Hdrop).
  rewrite <- Heq in Hdrop. rewrite Hdrop. apply regroup; [done|..];
    rewrite <- Hdrop.
  - apply Forall_drop, Forall_forall.
    intros A (u & Hu & ->)%(sortedLinks_elem _ _ _ _ _ Hout).
    by apply extract_stored_lines.
  - rewrite fmap_drop. eapply sublist_NoDup; [|apply sublist_drop].
    rewrite (sortedLinks_urls _ _ _ Hout). apply extract_NoDup.
Qed.

End regroup.

(** X21: grouping twice.  With a consistent [localeCompare] the grouped run
    on its own output writes the same text again, provided the first header
    is empty or the output has a line that ends a header: the groups come
    in the same order, also groups whose keys tie or are array indices, and
    so do the lines of each group. *)
Theorem grouped_sort_idempotent localeCompare URL_hostname content text :
  Consistent localeCompare →
  newContent localeCompare URL_hostname true content = Some text →
  headerContent content = [] ∨ is_Some (first_header_end 0 (split_lines text)) →
  newContent localeCompare URL_hostname true text = Some text.
Proof.
  intros Hc. unfold newContent at 1.
  set (body := drop (headerEndIndex (split_lines content)) (split_lines content)).
  destruct (sortedLinks localeCompare URL_hostname true (extract body))
    as [out|] eqn:Hout; [|done].
  intros Htext. cbn in Htext. injection Htext as <-.
  set (header := headerContent content).
  destruct (decide (header ++ out = [])) as [->|Hne]; [done|].
  assert (split_lines (join LF (header ++ out)) = header ++ out) as Hsplit.
  { apply split_lines_join; [done|]. apply Forall_app. split.
    - unfold header, headerContent, slice0. apply Forall_take, split_lines_no_LF.
    - eapply sortedLinks_no_LF; [|done].
      apply Forall_drop, split_lines_no_LF. }
  rewrite Hsplit. intros Hcase.
  pose proof (λ j, sortedLinks_grouped_again localeCompare URL_hostname Hc
                     body out j Hout) as Hagain.
  rewrite first_header_end_app in Hcase by apply headerContent_no_end.
  change (0 + length header) with (length header) in Hcase.
  assert (headerEndIndex (header ++ out)
          = default 0 (first_header_end (length header) out)) as Hindex.
  { unfold headerEndIndex.
    by rewrite first_header_end_app by apply headerContent_no_end. }
  unfold newContent, headerContent, slice0. rewrite Hsplit, Hindex.
  destruct (first_header_end (length header) out) as [i|] eqn:E.
  - destruct (first_header_end_spec _ _ _ E) as (j & line & -> & _).
    change (default 0 (Some (length header + j))) with (length header + j).
    rewrite drop_app_add, take_app_add, Hagain. cbn.
    by rewrite <- app_assoc, take_drop.
  - destruct Hcase as [Hnil|[? [=]]]. fold header in Hnil. rewrite Hnil.
    change (default 0 None) with 0.
    pose proof (Hagain 0) as Hall. rewrite drop_0 in Hall.
    by rewrite !app_nil_l, take_0, drop_0, Hall.
Qed.

Lemma grouped_sort_idempotent_witness :
  Consistent codeunit_compare
  ∧ newContent codeunit_compare plain_hostname true scenario5
    = Some ("* https://www.a.com/2" +:+ LF +:+ "* https://b.com/3" +:+ LF
            +:+ "* https://sub.a.com/1")
  ∧ headerContent scenario5 = []
  ∧ newContent codeunit_compare plain_hostname true
      ("* https://www.a.com/2" +:+ LF +:+ "* https://b.com/3" +:+ LF
       +:+ "* https://sub.a.com/1")
    = Some ("* https://www.a.com/2" +:+ LF +:+ "* https://b.com/3" +:+ LF
            +:+ "* https://sub.a.com/1").
Proof.
  split; [exact codeunit_consistent|]. split; [reflexivity|].
  split; [reflexivity|].
  exact (grouped_sort_idempotent codeunit_compare plain_hostname scenario5 _
           codeunit_consistent eq_refl (or_introl eq_refl)).
Defined.
